(** * QueCtl: the job store, the dispatch logic and their state machine

    A shallow embedding of [src/storage.js] (class [Storage], the worker
    loop and class [Queue]) and of [src/config.js] (class [Config]).

    - The SQLite table [jobs] has [id TEXT PRIMARY KEY]: it is a finite map
      from ids to the nine remaining columns, [gmap string Row].  A [Job] is
      what [rowToJob] builds from a row: the key together with its columns.
    - A timestamp column holds the text [toISOString] makes of an instant.
      The model keeps the instant, in milliseconds since the epoch ([Z]);
      every clock reading of the source is an explicit argument of the
      operation that reads it.  [created_at] and [updated_at] are readings
      of the system clock and are compared as instants.  [next_retry_at] is
      computed and may lie beyond year 9999, where [toISOString] switches to
      a signed year of six digits: the query that compares it with the
      clock compares the two texts bytewise, as SQLite does ([iso_text_le]).
    - A JS number is an IEEE 754 double.  An integer column is a [Z]; the
      backoff arithmetic keeps the rational that a double denotes and rounds
      after every operation ([double]).
    - better-sqlite3 is synchronous and the code opens no transaction: one
      SQL statement is atomic, a method that issues several is not, and the
      workers and the command line are separate processes.  The transition
      system [Worker.step] therefore has the single statements of
      [getNextJob] and [retryFromDLQ] as steps of their own; [Worker.call]
      is the part of it in which every method call runs to completion
      before the next one begins. *)

From Stdlib Require Import ZArith QArith Qabs Qpower Qround Qreduction Lia Lqa.
From stdpp Require Import gmap strings list fin_maps sorting.

Local Open Scope string_scope.
Local Open Scope Z_scope.

(** ** Data model *)

(** The five values the code ever writes to the [state] column. *)
Inductive JobState := pending | processing | completed | failed | dead.

#[global] Instance JobState_eq_dec : EqDecision JobState.
Proof. solve_decision. Defined.

(** The text stored in the [state] column. *)
Definition state_name (st : JobState) : string :=
  match st with
  | pending => "pending"
  | processing => "processing"
  | completed => "completed"
  | failed => "failed"
  | dead => "dead"
  end.

(** The columns of table [jobs] besides the primary key. *)
Record Row := mkRow {
  command : string;
  state : JobState;
  attempts : Z;
  max_retries : Z;
  created_at : Z;
  updated_at : Z;
  next_retry_at : option Z;      (* NULL is [None] *)
  worker_id : option string;     (* NULL is [None] *)
  error_message : option string  (* NULL is [None] *)
}.

(** The object [rowToJob] returns. *)
Record Job := mkJob { id : string; fields :> Row }.

#[global] Instance Row_eq_dec : EqDecision Row.
Proof. solve_decision. Defined.
#[global] Instance Job_eq_dec : EqDecision Job.
Proof. solve_decision. Defined.

Definition rowToJob (kr : string * Row) : Job := mkJob kr.1 kr.2.

(** The object literals that the call sites of this repository hand to
    [updateJob]: they use these five keys and no other.  [None] is an absent
    key, so the column is not in the SET list; [Some None] sets the column
    to NULL.  [updated_at] is always added by [updateJob] itself. *)
Record Updates := mkUpdates {
  u_state : option JobState;
  u_attempts : option Z;
  u_next_retry_at : option (option Z);
  u_worker_id : option (option string);
  u_error_message : option (option string)
}.

(** JS [x || d] on a number that may be absent: [undefined] and [0] are
    falsy. *)
Definition js_or_num (x : option Z) (d : Z) : Z :=
  match x with
  | Some v => if v =? 0 then d else v
  | None => d
  end.

(** JS [x || d] on a string that may be absent: [undefined] and the empty
    string are falsy. *)
Definition js_or_str (x : option string) (d : string) : string :=
  match x with
  | Some v => if decide (v = "") then d else v
  | None => d
  end.

(** JS [!x] on a string that may be absent. *)
Definition js_not_str (x : option string) : bool :=
  match x with
  | Some v => bool_decide (v = "")
  | None => true
  end.

(** ** Numbers *)

(** The power of two with exponent [e]. *)
Definition pow2 (e : Z) : Q := Qpower (2 # 1) e.

Arguments pow2 : simpl never.

(** The exponent of a positive rational: the [e] with
    [2 ^ e <= q < 2 ^ (e + 1)]. *)
Definition Qlog2 (q : Q) : Z :=
  let e := Z.log2 (Qnum q) - Z.log2 (Z.pos (Qden q)) in
  if Qle_bool (pow2 e) q then e else e - 1.

(** The nearest integer, the even one of two that are equally near. *)
Definition round_half_even (q : Q) : Z :=
  let f := Qfloor q in
  match (q - inject_Z f ?= 1 # 2)%Q with
  | Lt => f
  | Gt => f + 1
  | Eq => if Z.even f then f else f + 1
  end.

(** A positive rational rounded to 53 significant bits. *)
Definition round53 (q : Q) : Q :=
  let ulp := pow2 (Qlog2 q - 52) in
  (inject_Z (round_half_even (q / ulp)) * ulp)%Q.

(** The double nearest to a rational (round to nearest, ties to even), as
    the rational it denotes.  The exponent is not bounded.  A value beyond
    the largest finite double stands for an infinity: neither is a valid
    time value.  Below the smallest normal double the model keeps more bits
    than a double has: a difference far below the millisecond to which a
    time value is cut. *)
Definition double (q : Q) : Q :=
  let q := Qred q in
  match Qnum q with
  | 0 => 0%Q
  | Z.pos _ => round53 q
  | Z.neg _ => (- round53 (- q))%Q
  end.

(** JS [x * y] and [x + y] on doubles. *)
Definition js_mul (x y : Q) : Q := double (x * y).
Definition js_add (x y : Q) : Q := double (x + y).

(** A number that stands for [Infinity]. *)
Definition JS_INFINITY : Q := pow2 1024.

(** [Math.pow(x, k)] for an integral exponent.  ECMAScript leaves the last
    bit of the result to the engine; the model takes the double nearest to
    the exact power.  A zero raised to a negative power is infinite. *)
Definition Math_pow (x : Q) (k : Z) : Q :=
  if Qeq_bool x 0 && (k <? 0) then JS_INFINITY else double (Qpower x k).

(** ** Dates *)

(** The largest time value of a JS [Date], in milliseconds. *)
Definition MAX_TIME_VALUE : Z := 8640000000000000.

(** Rounding towards zero. *)
Definition Qtrunc (v : Q) : Z := Z.quot (Qnum v) (Z.pos (Qden v)).

(** [new Date(v).toISOString()]: the constructor clips [v] to an integral
    number of milliseconds, and to an invalid date beyond the largest time
    value, on which [toISOString] throws a RangeError ([None]). *)
Definition Date_toISOString (v : Q) : option Z :=
  if Qle_bool (Qabs v) (inject_Z MAX_TIME_VALUE)
  then Some (Qtrunc v)
  else None.

(** The text of a date is ["YYYY-MM-DDTHH:mm:ss.sssZ"] for the years 0000
    to 9999 and ["+YYYYYY-MM-DDT..."] or ["-YYYYYY-MM-DDT..."], with the
    absolute value of the year, outside them. *)
Definition MS_PER_DAY : Z := 86400000.
Definition YEAR_0 : Z := -62167219200000.       (* 0000-01-01T00:00:00.000Z *)
Definition YEAR_10000 : Z := 253402300800000.   (* +010000-01-01T00:00:00.000Z *)

(** The year of the proleptic Gregorian calendar in which day [z] lies,
    days counted from 1970-01-01. *)
Definition year_of_day (z : Z) : Z :=
  let z := z + 719468 in
  let era := z / 146097 in
  let doe := z - era * 146097 in
  let yoe := (doe - doe / 1460 + doe / 36524 - doe / 146096) / 365 in
  let doy := doe - (365 * yoe + yoe / 4 - yoe / 100) in
  let mp := (5 * doy + 2) / 153 in
  yoe + era * 400 + (if mp <? 10 then 0 else 1).

(** The day on which year [y] begins. *)
Definition day_of_year_start (y : Z) : Z :=
  365 * (y - 1) + (y - 1) / 4 - (y - 1) / 100 + (y - 1) / 400 - 719162.

Definition year_of (t : Z) : Z := year_of_day (t / MS_PER_DAY).
Definition year_start (y : Z) : Z := day_of_year_start y * MS_PER_DAY.

(** What decides the bytewise order of two date texts.  The first byte is
    ['+'] (43), ['-'] (45) or a digit (48 to 57): dates beyond year 9999
    come first, then the dates before year 0000, then the dates of a
    four-digit year.  Among dates of one of the fixed-width forms the
    earlier instant comes first, except that before year 0000 the year
    with the smaller absolute value does. *)
Definition iso_key (t : Z) : Z * Z * Z :=
  if t <? YEAR_0 then (1, - year_of t, t - year_start (year_of t))
  else if t <? YEAR_10000 then (2, 0, t)
  else (0, 0, t).

Definition lex3_le (a b : Z * Z * Z) : bool :=
  match a, b with
  | (a1, a2, a3), (b1, b2, b3) =>
      (a1 <? b1) || ((a1 =? b1) && ((a2 <? b2) || ((a2 =? b2) && (a3 <=? b3))))
  end.

(** SQLite's [<=] on the texts of two instants. *)
Definition iso_text_le (a b : Z) : bool := lex3_le (iso_key a) (iso_key b).

(** ** Storage *)

Module Storage.

(** The jobs table. *)
Abbreviation Table := (gmap string Row).

(** [getJob(id)]: [SELECT * FROM jobs WHERE id = ?]. *)
Definition getJob (i : string) (db : Table) : option Job :=
  match db !! i with
  | Some r => Some (mkJob i r)
  | None => None
  end.

(** The argument object of [createJob]; [Queue.enqueue] always supplies
    every key, the [||] defaults are kept as written. *)
Record NewJob := mkNewJob {
  n_id : string;
  n_command : string;
  n_state : option JobState;
  n_attempts : option Z;
  n_max_retries : option Z;
  n_created_at : option Z;
  n_updated_at : option Z
}.

(** [createJob(job)]: the INSERT names seven columns, the other three are
    NULL.  A second row with the same primary key is refused by SQLite
    (the call throws, [None]); on success the row is read back. *)
Definition createJob (job : NewJob) (now : Z) (db : Table)
  : option Job * Table :=
  match db !! n_id job with
  | Some _ => (None, db)
  | None =>
      let r := mkRow (n_command job)
                     (default pending (n_state job))
                     (js_or_num (n_attempts job) 0)
                     (js_or_num (n_max_retries job) 3)
                     (default now (n_created_at job))
                     (default now (n_updated_at job))
                     None None None in
      let db' := <[n_id job := r]> db in
      (getJob (n_id job) db', db')
  end.

(** The effect of [UPDATE jobs SET k1 = ?, ..., updated_at = ?] on one
    row. *)
Definition apply_updates (u : Updates) (now : Z) (r : Row) : Row :=
  mkRow (command r)
        (default (state r) (u_state u))
        (default (attempts r) (u_attempts u))
        (max_retries r)
        (created_at r)
        now
        (default (next_retry_at r) (u_next_retry_at u))
        (default (worker_id r) (u_worker_id u))
        (default (error_message r) (u_error_message u)).

(** [updateJob(id, updates)]: unconditional update [WHERE id = ?] (no row,
    no change), then the row is read back. *)
Definition updateJob (i : string) (u : Updates) (now : Z) (db : Table)
  : option Job * Table :=
  let db' := alter (apply_updates u now) i db in
  (getJob i db', db').

(** [lockJob(id, workerId)]: one conditional UPDATE,
    [WHERE id = ? AND state = 'pending']; returns [result.changes > 0].
    [workerId] is the id of a [Worker], which its constructor makes a
    non-empty string. *)
Definition lockJob (i : string) (workerId : string) (now : Z) (db : Table)
  : bool * Table :=
  match db !! i with
  | Some r =>
      if decide (state r = pending)
      then (true,
            <[i := mkRow (command r) processing (attempts r) (max_retries r)
                         (created_at r) now (next_retry_at r)
                         (Some workerId) (error_message r)]> db)
      else (false, db)
  | None => (false, db)
  end.

(** [ORDER BY key ASC LIMIT 1] over an enumeration of the selected rows:
    a row whose key is least.  SQL leaves the choice among equal keys
    open; this model keeps the earliest such row of the enumeration. *)
Fixpoint order_by_limit1 (le : Job → Job → bool) (l : list Job)
  : option Job :=
  match l with
  | [] => None
  | j :: l' =>
      match order_by_limit1 le l' with
      | None => Some j
      | Some m => if le j m then Some j else Some m
      end
  end.

(** All rows of the table, as [rowToJob] presents them. *)
Definition all_jobs (db : Table) : list Job := rowToJob <$> map_to_list db.

Definition is_pending (j : Job) : bool := bool_decide (state j = pending).

Definition created_at_le (a b : Job) : bool := created_at a <=? created_at b.

(** [getNextPendingJob()]:
    [WHERE state = 'pending' ORDER BY created_at ASC LIMIT 1]. *)
Definition getNextPendingJob (db : Table) : option Job :=
  order_by_limit1 created_at_le (filter (λ j, is_pending j = true) (all_jobs db)).

(** SQLite's ascending order on a nullable TEXT column of dates: NULL sorts
    first. *)
Definition null_first_le (a b : option Z) : bool :=
  match a, b with
  | None, _ => true
  | Some _, None => false
  | Some x, Some y => iso_text_le x y
  end.

Definition next_retry_at_le (a b : Job) : bool :=
  null_first_le (next_retry_at a) (next_retry_at b).

(** The WHERE clause of [getRetryableJobs]. *)
Definition is_retryable (now : Z) (j : Job) : bool :=
  bool_decide (state j = failed)
  && (attempts j <? max_retries j)
  && match next_retry_at j with
     | None => true
     | Some t => iso_text_le t now
     end.

(** [getRetryableJobs()]: [now] is the clock reading bound to [?]. *)
Definition getRetryableJobs (now : Z) (db : Table) : option Job :=
  order_by_limit1 next_retry_at_le
    (filter (λ j, is_retryable now j = true) (all_jobs db)).

(** [moveToDLQ(id)]. *)
Definition moveToDLQ (i : string) (now : Z) (db : Table)
  : option Job * Table :=
  updateJob i (mkUpdates (Some dead) None None (Some None) None) now db.

(** [retryFromDLQ(id)]: [null] unless the job exists and is dead. *)
Definition retryFromDLQ (i : string) (now : Z) (db : Table)
  : option Job * Table :=
  match getJob i db with
  | Some job =>
      if decide (state job = dead)
      then updateJob i (mkUpdates (Some pending) (Some 0) (Some None) None
                                  (Some None)) now db
      else (None, db)
  | None => (None, db)
  end.

(** [ORDER BY created_at DESC]: newest first. *)
Definition created_at_desc (a b : Job) : Prop := created_at b ≤ created_at a.

(** [ORDER BY updated_at DESC]: most recently written first. *)
Definition updated_at_desc (a b : Job) : Prop := updated_at b ≤ updated_at a.

#[global] Instance created_at_desc_dec : RelDecision created_at_desc.
Proof. intros a b. unfold created_at_desc. apply _. Defined.
#[global] Instance updated_at_desc_dec : RelDecision updated_at_desc.
Proof. intros a b. unfold updated_at_desc. apply _. Defined.

(** [listJobs(state = null)]: the WHERE clause is added only for a truthy
    [state]; [ORDER BY created_at DESC].  SQL leaves the order among equal
    keys open; this model sorts the enumeration by merging. *)
Definition listJobs (st : option string) (db : Table) : list Job :=
  merge_sort created_at_desc
    (if js_not_str st then all_jobs db
     else filter (λ j : Job, state_name (state j) = default "" st) (all_jobs db)).

(** [getDLQJobs()]: [WHERE state = 'dead' ORDER BY updated_at DESC]. *)
Definition getDLQJobs (db : Table) : list Job :=
  merge_sort updated_at_desc (filter (λ j : Job, state j = dead) (all_jobs db)).

(** The object [getStats] returns. *)
Record Stats := mkStats {
  n_pending : nat;
  n_processing : nat;
  n_completed : nat;
  n_failed : nat;
  n_dead : nat
}.

(** The rows of [SELECT state, COUNT(star) FROM jobs GROUP BY state]: one
    per state that occurs. *)
Definition count_by_state (db : Table) : list (JobState * nat) :=
  omap (λ st, let n := length (filter (λ j : Job, state j = st) (all_jobs db)) in
              if decide (n = 0%nat) then None else Some (st, n))
       [pending; processing; completed; failed; dead].

(** [stats[row.state] = row.count]. *)
Definition set_count (stats : Stats) (row : JobState * nat) : Stats :=
  match row.1 with
  | pending => mkStats row.2 (n_processing stats) (n_completed stats)
                       (n_failed stats) (n_dead stats)
  | processing => mkStats (n_pending stats) row.2 (n_completed stats)
                          (n_failed stats) (n_dead stats)
  | completed => mkStats (n_pending stats) (n_processing stats) row.2
                         (n_failed stats) (n_dead stats)
  | failed => mkStats (n_pending stats) (n_processing stats)
                      (n_completed stats) row.2 (n_dead stats)
  | dead => mkStats (n_pending stats) (n_processing stats)
                    (n_completed stats) (n_failed stats) row.2
  end.

(** [getStats()]: all counts start at 0, then each row of the grouped query
    is written into its key. *)
Definition getStats (db : Table) : Stats :=
  foldl set_count (mkStats 0 0 0 0 0) (count_by_state db).

End Storage.

(** ** Config *)

(** The two keys of table [config] that the dispatch logic reads, with the
    numbers their stored strings denote; [None] is a missing key.  The
    strings are written by [init] ('3', '2') and by the validating setters
    only. *)
Record ConfigTable := mkConfig {
  c_max_retries : option Z;
  c_backoff_base : option Q
}.

Module Config.

(** [getMaxRetries()]: [parseInt(this.get('max_retries') || '3', 10)]. *)
Definition getMaxRetries (c : ConfigTable) : Z :=
  default 3 (c_max_retries c).

(** [getBackoffBase()]: [parseFloat(this.get('backoff_base') || '2')], the
    double nearest to the number the string denotes. *)
Definition getBackoffBase (c : ConfigTable) : Q :=
  double (default (2 # 1)%Q (c_backoff_base c)).

(** What [init] seeds into an empty config table. *)
Definition initial : ConfigTable := mkConfig (Some 3) (Some (2 # 1)%Q).

End Config.

(** ** Queue *)

Module Queue.
Import Storage.

(** The parsed job descriptor passed to [enqueue]; [None] is an absent
    key. *)
Record JobData := mkJobData {
  d_id : option string;
  d_command : option string;
  d_max_retries : option Z
}.

(** The errors [enqueue] throws. *)
Inductive EnqueueError :=
| MustHaveId
| MustHaveCommand
| AlreadyExists (i : string)
| InsertRefused.

Inductive EnqueueResult :=
| Enqueued (j : Job)
| Throws (e : EnqueueError).

(** [enqueue(jobData)].  [tc] and [tu] are the two clock readings of the
    object literal, [ti] the one inside [createJob]. *)
Definition enqueue (jobData : JobData) (cfg : ConfigTable) (tc tu ti : Z)
    (db : Table) : EnqueueResult * Table :=
  if js_not_str (d_id jobData) then (Throws MustHaveId, db)
  else if js_not_str (d_command jobData) then (Throws MustHaveCommand, db)
  else
    let i := default "" (d_id jobData) in
    match getJob i db with
    | Some _ => (Throws (AlreadyExists i), db)
    | None =>
        let job :=
          mkNewJob i (default "" (d_command jobData)) (Some pending) (Some 0)
            (Some (js_or_num (d_max_retries jobData)
                             (Config.getMaxRetries cfg)))
            (Some tc) (Some tu) in
        match createJob job ti db with
        | (Some j, db') => (Enqueued j, db')
        | (None, db') => (Throws InsertRefused, db')
        end
    end.

(** How the awaited [execAsync] settles: resolved with the two output
    streams, or rejected with an error whose [message] may be empty. *)
Inductive ExecOutcome :=
| Resolved (stdout stderr : string)
| Rejected (message : option string).

(** What [executeJob] returns (or throws). *)
Inductive ExecuteResult :=
| LostRace                                       (* [null] *)
| Success (stdout stderr : string)
| Failure (error : string) (attempts : Z) (nextRetryAt : option Z)
| ThrowsRangeError.

(** The update of the success branch. *)
Definition completed_updates : Updates :=
  mkUpdates (Some completed) None None (Some None) (Some None).

(** [executeJob] after the await, command succeeded. *)
Definition executeJob_resolved (job : Job) (stdout stderr : string)
    (tu : Z) (db : Table) : ExecuteResult * Table :=
  (Success stdout stderr, (updateJob (id job) completed_updates tu db).2).

(** [executeJob] after the await, command failed ([catch] branch).  [tn]
    is [Date.now()], [tu] the clock reading of [updateJob]. *)
Definition executeJob_rejected (job : Job) (message : option string)
    (cfg : ConfigTable) (tn tu : Z) (db : Table) : ExecuteResult * Table :=
  let attempts := attempts job + 1 in
  let maxRetries := max_retries job in
  let backoffBase := Config.getBackoffBase cfg in
  let errorMessage := js_or_str message "Command execution failed" in
  if attempts >=? maxRetries then
    (Failure errorMessage attempts None,
     (updateJob (id job)
        (mkUpdates (Some dead) (Some attempts) None (Some None)
                   (Some (Some errorMessage))) tu db).2)
  else
    let delaySeconds := Math_pow backoffBase attempts in
    match Date_toISOString
            (js_add (inject_Z tn) (js_mul delaySeconds (inject_Z 1000))) with
    | None => (ThrowsRangeError, db)
    | Some nextRetryAt =>
        (Failure errorMessage attempts (Some nextRetryAt),
         (updateJob (id job)
            (mkUpdates (Some failed) (Some attempts) (Some (Some nextRetryAt))
                       (Some None) (Some (Some errorMessage))) tu db).2)
    end.

(** [executeJob(job, workerId)], both halves: [tl] is the clock reading of
    [lockJob]. *)
Definition executeJob (job : Job) (workerId : string) (outcome : ExecOutcome)
    (cfg : ConfigTable) (tl tn tu : Z) (db : Table)
  : ExecuteResult * Table :=
  let (locked, db1) := lockJob (id job) workerId tl db in
  if negb locked then (LostRace, db1)
  else
    match outcome with
    | Resolved stdout stderr => executeJob_resolved job stdout stderr tu db1
    | Rejected message => executeJob_rejected job message cfg tn tu db1
    end.

(** The update by which [getNextJob] re-queues a due retry. *)
Definition requeue_updates : Updates :=
  mkUpdates (Some pending) None (Some None) None None.

(** [getNextJob()]: [tq] is the clock reading of [getRetryableJobs], [tu]
    that of [updateJob]. *)
Definition getNextJob (tq tu : Z) (db : Table) : option Job * Table :=
  match getNextPendingJob db with
  | Some job => (Some job, db)
  | None =>
      match getRetryableJobs tq db with
      | Some job =>
          let db' := (updateJob (id job) requeue_updates tu db).2 in
          (getJob (id job) db', db')
      | None => (None, db)
      end
  end.

(** [retryFromDLQ(jobId)]: passed through to the storage. *)
Definition retryFromDLQ (jobId : string) (now : Z) (db : Table)
  : option Job * Table :=
  Storage.retryFromDLQ jobId now db.

End Queue.

(** ** The worker loop and the transition system of the store *)

Module Worker.
Import Storage Queue.

(** A run of claim attempts on one job id, each by a worker at a clock
    reading: the answers of [lockJob], in order, and the final table. *)
Fixpoint claim_attempts (i : string) (ws : list (string * Z)) (db : Table)
  : list bool * Table :=
  match ws with
  | [] => ([], db)
  | (w, t) :: ws' =>
      let (ok, db1) := lockJob i w t db in
      let (oks, db2) := claim_attempts i ws' db1 in
      (ok :: oks, db2)
  end.

(** One turn of the loop of [Worker.process] with no other process in
    between: [getNextJob], then [executeJob] on what it returned, or
    nothing ([None]: the worker sleeps). *)
Definition iteration (workerId : string) (outcome : ExecOutcome)
    (cfg : ConfigTable) (tq tr tl tn tu : Z) (db : Table)
  : option ExecuteResult * Table :=
  match getNextJob tq tr db with
  | (Some job, db1) =>
      let (res, db2) := executeJob job workerId outcome cfg tl tn tu db1 in
      (Some res, db2)
  | (None, db1) => (None, db1)
  end.

(** The store together with what the processes hold between two of their
    statements: the job objects [getNextJob] has handed to workers so far
    ([Worker.process] passes to [executeJob] only such an object, maybe long
    after it was read), the rows a [getNextJob] has read as due retries
    ([selected]) and the ids a [retryFromDLQ] has read as dead
    ([seen_dead]). *)
Record System := mkSystem {
  jobs : Table;
  handed : list Job;
  selected : list Job;
  seen_dead : list string
}.

Definition initial : System := mkSystem ∅ [] [] [].

(** One method call by some process, run with no statement of another
    process in between.  The two halves of [executeJob] are separate calls,
    and the second half is not tied to the first: any handed job object may
    be written back at any time. *)
Inductive call : System → System → Prop :=
| call_enqueue s jobData cfg tc tu ti :
    call s (mkSystem (enqueue jobData cfg tc tu ti (jobs s)).2 (handed s)
                     (selected s) (seen_dead s))
| call_getNextJob s tq tu :
    call s (mkSystem (getNextJob tq tu (jobs s)).2
                     (from_option (λ j, j :: handed s) (handed s)
                                  (getNextJob tq tu (jobs s)).1)
                     (selected s) (seen_dead s))
| call_claim s i workerId tl :
    call s (mkSystem (lockJob i workerId tl (jobs s)).2 (handed s)
                     (selected s) (seen_dead s))
| call_resolved s job stdout stderr tu :
    call s (mkSystem (executeJob_resolved job stdout stderr tu (jobs s)).2
                     (handed s) (selected s) (seen_dead s))
| call_rejected s job message cfg tn tu :
    job ∈ handed s →
    call s (mkSystem (executeJob_rejected job message cfg tn tu (jobs s)).2
                     (handed s) (selected s) (seen_dead s))
| call_moveToDLQ s i now :
    call s (mkSystem (moveToDLQ i now (jobs s)).2 (handed s)
                     (selected s) (seen_dead s))
| call_retryFromDLQ s i now :
    call s (mkSystem (Queue.retryFromDLQ i now (jobs s)).2 (handed s)
                     (selected s) (seen_dead s)).

(** One step of some process: a call as above, or a single statement of
    [getNextJob] or of [retryFromDLQ], the two methods that read a row and
    then update it without a condition on what they read.
    - [getNextJob]: the SELECT of [getRetryableJobs]; later the UPDATE of the
      row it returned; later the SELECT of [getJob] whose result is handed to
      the worker.
    - [retryFromDLQ]: the SELECT of [getJob] that finds the job dead; later
      the UPDATE.
    A process can be held up for any time between two statements, also
    between the SELECT of [getNextPendingJob] that found nothing and the one
    of [getRetryableJobs].  The order of the statements of one process is
    not enforced, which adds behaviours and takes none away. *)
Inductive step : System → System → Prop :=
| step_call s s' :
    call s s' → step s s'
| step_select s tq job :
    getRetryableJobs tq (jobs s) = Some job →
    step s (mkSystem (jobs s) (handed s) (job :: selected s) (seen_dead s))
| step_requeue s job tu :
    job ∈ selected s →
    step s (mkSystem (updateJob (id job) requeue_updates tu (jobs s)).2
                     (handed s) (selected s) (seen_dead s))
| step_reread s job j :
    job ∈ selected s → getJob (id job) (jobs s) = Some j →
    step s (mkSystem (jobs s) (j :: handed s) (selected s) (seen_dead s))
| step_see_dead s i :
    state <$> jobs s !! i = Some dead →
    step s (mkSystem (jobs s) (handed s) (selected s) (i :: seen_dead s))
| step_revive s i now :
    i ∈ seen_dead s →
    step s (mkSystem
              (updateJob i (mkUpdates (Some pending) (Some 0) (Some None) None
                                      (Some None)) now (jobs s)).2
              (handed s) (selected s) (seen_dead s)).

(** What the processes can make of an empty store, statement by
    statement. *)
Definition reachable (s : System) : Prop := rtc step initial s.

(** The same with every call run to completion before the next begins. *)
Definition serially_reachable (s : System) : Prop := rtc call initial s.

End Worker.

Import Storage Queue Worker.

(** ** Vocabulary of the statements *)

(** [j] is a row of the table, as [rowToJob] presents it. *)
Definition in_table (db : gmap string Row) (j : Job) : Prop :=
  db !! id j = Some (fields j).

(** The WHERE clause of [getRetryableJobs], as a proposition. *)
Definition retryable_at (now : Z) (r : Row) : Prop :=
  state r = failed ∧ attempts r < max_retries r ∧
  (next_retry_at r = None ∨
   ∃ t, next_retry_at r = Some t ∧ iso_text_le t now = true).

(** An instant whose date has a year of four digits. *)
Definition four_digit_year (t : Z) : Prop := YEAR_0 ≤ t < YEAR_10000.

(** No stored retry instant lies outside the years 0000 to 9999. *)
Definition retries_in_four_digit_years (db : gmap string Row) : Prop :=
  ∀ k r t, db !! k = Some r → next_retry_at r = Some t → four_digit_year t.

(** A failed job with retries left whose retry instant, if it has one, is
    not after [now]. *)
Definition due_at (now : Z) (r : Row) : Prop :=
  state r = failed ∧ attempts r < max_retries r ∧
  (next_retry_at r = None ∨ ∃ t, next_retry_at r = Some t ∧ t ≤ now).

(** [a] is due no later than [b]: no instant at all, or the earlier
    instant. *)
Definition not_later (a b : option Z) : Prop :=
  match a, b with
  | None, _ => True
  | Some _, None => False
  | Some x, Some y => x ≤ y
  end.

(** Every row of the table satisfies [P]. *)
Definition all_rows (P : Row → Prop) (db : gmap string Row) : Prop :=
  ∀ k r, db !! k = Some r → P r.

(** [max_retries] is never rewritten and rows are never deleted. *)
Definition keeps_max_retries (db db' : gmap string Row) : Prop :=
  ∀ k r, db !! k = Some r →
    ∃ r', db' !! k = Some r' ∧ max_retries r' = max_retries r.

(** The [worker_id] column is set exactly on the rows in processing. *)
Definition owned_iff_processing (r : Row) : Prop :=
  worker_id r ≠ None ↔ state r = processing.

(** A failed row carries a retry instant and has retries left. *)
Definition failed_is_scheduled (r : Row) : Prop :=
  state r = failed → next_retry_at r ≠ None ∧ attempts r < max_retries r.

(** Every job object handed to a worker is still a row, with the
    [max_retries] it was read with. *)
Definition handed_known (s : System) : Prop :=
  ∀ j, j ∈ handed s →
    ∃ r, jobs s !! id j = Some r ∧ max_retries r = max_retries j.

(** The message recorded for a failed command. *)
Definition error_text (message : option string) : string :=
  js_or_str message "Command execution failed".

(** The time value [executeJob] computes for the next retry,
    [Date.now() + Math.pow(backoffBase, attempts) * 1000]: [tn] is
    [Date.now()], [k] the attempts count after the increment. *)
Definition retry_instant (cfg : ConfigTable) (tn k : Z) : Q :=
  js_add (inject_Z tn)
         (js_mul (Math_pow (Config.getBackoffBase cfg) k) (inject_Z 1000)).

(** The clock readings of one turn of the worker loop, in program order:
    [getRetryableJobs], the re-queuing [updateJob], [lockJob], [Date.now()]
    and the final [updateJob]. *)
Record Clock := mkClock {
  c_query : Z; c_requeue : Z; c_lock : Z; c_now : Z; c_update : Z
}.

(** Turns of the worker loop in which the command always fails. *)
Fixpoint failing_run (w : string) (message : option string)
    (cfg : ConfigTable) (cs : list Clock) (db : gmap string Row)
  : list (option ExecuteResult) * gmap string Row :=
  match cs with
  | [] => ([], db)
  | c :: cs' =>
      let (res, db1) :=
        iteration w (Rejected message) cfg (c_query c) (c_requeue c)
                  (c_lock c) (c_now c) (c_update c) db in
      let (ress, db2) := failing_run w message cfg cs' db1 in
      (res :: ress, db2)
  end.

(** The turn executed the job and recorded a failure. *)
Definition is_failure (res : option ExecuteResult) : Prop :=
  match res with
  | Some (Failure _ _ _) => True
  | _ => False
  end.

(** The row [getNextJob] makes of a due retry. *)
Definition requeued (now : Z) (r : Row) : Row :=
  mkRow (command r) pending (attempts r) (max_retries r) (created_at r)
        now None (worker_id r) (error_message r).

(** What the turn that makes the attempts count [k] returns when the command
    fails, for a job with [max_retries = m]. *)
Definition expected_failure (message : option string) (cfg : ConfigTable)
    (m k : Z) (c : Clock) : option ExecuteResult :=
  Some (Failure (error_text message) k
          (if k >=? m then None
           else Date_toISOString (retry_instant cfg (c_now c) k))).

(** A sample run: enqueue [j1], poll, claim, fail once. *)
Definition sample_job : Job :=
  mkJob "j1" (mkRow "exit 1" pending 0 3 10 10 None None None).

Definition sample_enqueued : System :=
  mkSystem (enqueue (mkJobData (Some "j1") (Some "exit 1") (Some 3))
                    Config.initial 10 10 10 (jobs initial)).2
           (handed initial) [] [].

Definition sample_polled : System :=
  mkSystem (getNextJob 20 20 (jobs sample_enqueued)).2
           (from_option (λ j, j :: handed sample_enqueued)
                        (handed sample_enqueued)
                        (getNextJob 20 20 (jobs sample_enqueued)).1)
           [] [].

Definition sample_claimed : System :=
  mkSystem (lockJob "j1" "w1" 21 (jobs sample_polled)).2 (handed sample_polled)
           [] [].

Definition sample_failed : System :=
  mkSystem (executeJob_rejected sample_job (Some "boom") Config.initial 30 31
                                (jobs sample_claimed)).2
           (handed sample_claimed) [] [].

(** The sample run goes on with two workers: once the retry of [j1] is
    due, [w2] and [w3] both read it as retryable; [w2] re-queues it, reads
    it back and claims it; then [w3] re-queues it. *)
Definition sample_due : Job :=
  mkJob "j1" (mkRow "exit 1" failed 1 3 10 31 (Some 2030) None (Some "boom")).

Definition race_selected : System :=
  mkSystem (jobs sample_failed) (handed sample_failed)
           [sample_due; sample_due] [].

Definition race_requeued : System :=
  mkSystem (updateJob "j1" requeue_updates 3001 (jobs race_selected)).2
           (handed race_selected) (selected race_selected) [].

Definition race_reread : System :=
  mkSystem (jobs race_requeued)
           (mkJob "j1" (mkRow "exit 1" pending 1 3 10 3001 None None
                              (Some "boom")) :: handed race_requeued)
           (selected race_requeued) [].

Definition race_claimed : System :=
  mkSystem (lockJob "j1" "w2" 3002 (jobs race_reread)).2 (handed race_reread)
           (selected race_reread) [].

Definition race_requeued_again : System :=
  mkSystem (updateJob "j1" requeue_updates 3003 (jobs race_claimed)).2
           (handed race_claimed) (selected race_claimed) [].

(** Another run: [j2], with one attempt allowed, fails and is dead; two
    [dlq retry j2] commands both read it as dead; the first revives it, a
    worker claims it, then the second command writes its update. *)
Definition dlq_job : Job :=
  mkJob "j2" (mkRow "exit 1" pending 0 1 10 10 None None None).

Definition dlq_enqueued : System :=
  mkSystem (enqueue (mkJobData (Some "j2") (Some "exit 1") (Some 1))
                    Config.initial 10 10 10 (jobs initial)).2
           [] [] [].

Definition dlq_polled : System :=
  mkSystem (getNextJob 20 20 (jobs dlq_enqueued)).2
           (from_option (λ j, j :: handed dlq_enqueued) (handed dlq_enqueued)
                        (getNextJob 20 20 (jobs dlq_enqueued)).1)
           [] [].

Definition dlq_claimed : System :=
  mkSystem (lockJob "j2" "w1" 21 (jobs dlq_polled)).2 (handed dlq_polled)
           [] [].

Definition dlq_dead : System :=
  mkSystem (executeJob_rejected dlq_job (Some "boom") Config.initial 30 31
                                (jobs dlq_claimed)).2
           (handed dlq_claimed) [] [].

Definition revive_seen : System :=
  mkSystem (jobs dlq_dead) (handed dlq_dead) [] ["j2"; "j2"].

Definition revive_first : System :=
  mkSystem (updateJob "j2" (mkUpdates (Some pending) (Some 0) (Some None)
                                      None (Some None)) 100 (jobs revive_seen)).2
           (handed revive_seen) [] (seen_dead revive_seen).

Definition revive_claimed : System :=
  mkSystem (lockJob "j2" "w2" 101 (jobs revive_first)).2 (handed revive_first)
           [] (seen_dead revive_first).

Definition revive_again : System :=
  mkSystem (updateJob "j2" (mkUpdates (Some pending) (Some 0) (Some None)
                                      None (Some None)) 102
                      (jobs revive_claimed)).2
           (handed revive_claimed) [] (seen_dead revive_claimed).

(** The table after three statements on job [i]: the re-queuing UPDATE of
    one [getNextJob], the claim of worker [w], and the re-queuing UPDATE of
    another [getNextJob] that had read the job before. *)
Definition requeue_claim_requeue (i w : string) (t1 t2 t3 : Z)
    (db : gmap string Row) : gmap string Row :=
  (updateJob i requeue_updates t3
     (lockJob i w t2 (updateJob i requeue_updates t1 db).2).2).2.

(** A configuration with [backoff-base] set to 10^12, and the row that the
    first failure of a job leaves under it at a clock of late 2026: the
    retry instant lies in year 33715. *)
Definition far_config : ConfigTable :=
  mkConfig (Some 3) (Some (1000000000000 # 1)%Q).

Definition far_retry : Row :=
  mkRow "exit 1" failed 1 3 1792999990000 1793000000006
        (Some 1001793000000005) None (Some "boom").

(** A failed row whose retry is due at that clock. *)
Definition near_retry : Row :=
  mkRow "true" failed 1 3 1792999980000 1793000000400
        (Some 1793000000500) None (Some "boom").

(** How many rows are in a given state. *)
Definition count_state (st : JobState) (db : gmap string Row) : nat :=
  length (filter (λ j : Job, state j = st) (all_jobs db)).

(** The total the [status] command prints:
    [Object.values(stats).reduce((a, b) => a + b, 0)]. *)
Definition stats_total (stats : Stats) : nat :=
  (n_pending stats + n_processing stats + n_completed stats
   + n_failed stats + n_dead stats)%nat.

(** The columns no statement of the code ever rewrites. *)
Definition same_identity (r r' : Row) : Prop :=
  command r' = command r ∧ max_retries r' = max_retries r ∧
  created_at r' = created_at r.

(** Every row of [db] is still a row of [db'], with the same identity. *)
Definition keeps_jobs (db db' : gmap string Row) : Prop :=
  ∀ k r, db !! k = Some r → ∃ r', db' !! k = Some r' ∧ same_identity r r'.

(** Attempts are counted from 0, and a failed row has been tried. *)
Definition attempts_counted (r : Row) : Prop :=
  0 ≤ attempts r ∧ (state r = failed → 1 ≤ attempts r).

(** 1 for a row in state [st], else 0. *)
Definition one_if (st : JobState) (r : Row) : nat :=
  if decide (state r = st) then 1%nat else 0%nat.

(** Turns of the worker loop in which the command always succeeds. *)
Fixpoint succeeding_run (w stdout stderr : string) (cfg : ConfigTable)
    (cs : list Clock) (db : gmap string Row)
  : list (option ExecuteResult) * gmap string Row :=
  match cs with
  | [] => ([], db)
  | c :: cs' =>
      let (res, db1) :=
        iteration w (Resolved stdout stderr) cfg (c_query c) (c_requeue c)
                  (c_lock c) (c_now c) (c_update c) db in
      let (ress, db2) := succeeding_run w stdout stderr cfg cs' db1 in
      (res :: ress, db2)
  end.

(** * Properties *)

(** ** Properties of the storage primitives *)

Section lookup_lemmas.
Implicit Types (db : gmap string Row) (i k : string) (r : Row).

Lemma getJob_Some db i j :
  getJob i db = Some j ↔ id j = i ∧ db !! i = Some (fields j).
Proof.
  unfold getJob. destruct (db !! i) as [r|] eqn:E.
  - split.
    + intros [= <-]. done.
    + intros [<- [= ->]]. by destruct j.
  - split; [done | by intros [_ ?]].
Qed.

Lemma getJob_None db i : getJob i db = None ↔ db !! i = None.
Proof. unfold getJob. by destruct (db !! i). Qed.

Lemma updateJob_lookup db i u now :
  (updateJob i u now db).2 !! i = apply_updates u now <$> db !! i.
Proof. unfold updateJob; simpl. by rewrite lookup_alter_eq. Qed.

Lemma updateJob_lookup_ne db i k u now :
  i ≠ k → (updateJob i u now db).2 !! k = db !! k.
Proof. intros. unfold updateJob; simpl. by rewrite lookup_alter_ne. Qed.

Lemma updateJob_absent db i u now :
  db !! i = None → (updateJob i u now db).2 = db.
Proof.
  intros H. unfold updateJob; simpl. apply map_eq; intros k.
  destruct (decide (i = k)) as [->|].
  - by rewrite lookup_alter_eq, H.
  - by rewrite lookup_alter_ne.
Qed.

Lemma lockJob_true db i w now :
  (lockJob i w now db).1 = true ↔ state <$> db !! i = Some pending.
Proof.
  unfold lockJob. destruct (db !! i) as [r|]; simpl; [|done].
  destruct (decide (state r = pending)) as [E|E]; simpl.
  - by rewrite E.
  - split; [done | intros [=]; done].
Qed.

Lemma lockJob_false db i w now :
  (lockJob i w now db).1 = false → (lockJob i w now db).2 = db.
Proof.
  unfold lockJob. destruct (db !! i) as [r|]; simpl; [|done].
  by destruct (decide (state r = pending)).
Qed.

Lemma lockJob_lookup_ne db i k w now :
  i ≠ k → (lockJob i w now db).2 !! k = db !! k.
Proof.
  intros. unfold lockJob. destruct (db !! i) as [r|]; simpl; [|done].
  destruct (decide (state r = pending)); simpl; [|done].
  by rewrite lookup_insert_ne.
Qed.

End lookup_lemmas.

(** ** C1: the claim operation *)

(** C1. [lockJob] succeeds exactly when the job exists and its state is
    pending.  On success the row gets state processing and the claiming
    worker's id (and a fresh [updated_at]), every other column and every
    other row is as before; on failure the table is unchanged.  Hence in any
    run of claim attempts against a pending job the first one succeeds and
    all later ones fail, leaving the first worker as the owner. *)
Theorem lockJob_claims_exactly_once (db : gmap string Row) (i w : string)
    (now : Z) :
  ((lockJob i w now db).1 = true ↔ state <$> db !! i = Some pending) ∧
  (∀ r, db !! i = Some r → state r = pending →
     ∃ r', (lockJob i w now db).2 !! i = Some r' ∧
       state r' = processing ∧ worker_id r' = Some w ∧ updated_at r' = now ∧
       command r' = command r ∧ attempts r' = attempts r ∧
       max_retries r' = max_retries r ∧ created_at r' = created_at r ∧
       next_retry_at r' = next_retry_at r ∧
       error_message r' = error_message r) ∧
  (∀ k, k ≠ i → (lockJob i w now db).2 !! k = db !! k) ∧
  ((lockJob i w now db).1 = false → (lockJob i w now db).2 = db) ∧
  (∀ ws, state <$> db !! i = Some pending →
     (claim_attempts i ((w, now) :: ws) db).1
       = true :: replicate (length ws) false ∧
     (claim_attempts i ((w, now) :: ws) db).2 = (lockJob i w now db).2 ∧
     worker_id <$> (claim_attempts i ((w, now) :: ws) db).2 !! i
       = Some (Some w)).
Proof.
  split; [apply lockJob_true|].
  split.
  { intros r Hr Hp. unfold lockJob. rewrite Hr.
    destruct (decide (state r = pending)); [|done]. simpl.
    rewrite lookup_insert_eq. eexists. split; [done|]. by simpl. }
  split; [by intros k Hk; apply lockJob_lookup_ne|].
  split; [apply lockJob_false|].
  intros ws Hp.
  assert (Hrest : ∀ ws' db', state <$> db' !! i = Some processing →
             claim_attempts i ws' db' = (replicate (length ws') false, db')).
  { induction ws' as [|[w' t'] ws' IH]; intros db' Hs; [done|].
    simpl. unfold lockJob at 1.
    destruct (db' !! i) as [r|] eqn:E; [|done]. simpl in Hs.
    destruct (decide (state r = pending)) as [Hr|Hr]; [congruence|].
    by rewrite (IH db'); [|rewrite E]. }
  destruct (db !! i) as [r|] eqn:Hr; [|done].
  simpl in Hp. injection Hp as Hp.
  simpl. destruct (lockJob i w now db) as [ok db1] eqn:Hl.
  assert (db1 !! i = Some (mkRow (command r) processing (attempts r)
            (max_retries r) (created_at r) now (next_retry_at r) (Some w)
            (error_message r)) ∧ ok = true) as [H1 ->].
  { unfold lockJob in Hl. rewrite Hr in Hl.
    destruct (decide (state r = pending)); [|done].
    injection Hl as <- <-. by rewrite lookup_insert_eq. }
  rewrite Hrest by (by rewrite H1). simpl. by rewrite H1.
Qed.

(** A pending job, claimed by three workers in turn; a second job is not
    touched; a job in processing is not claimed again. *)
Lemma lockJob_claims_exactly_once_witness :
  (claim_attempts "j1" [("w1", 5); ("w2", 6); ("w3", 7)]
     {["j1" := mkRow "echo ok" pending 0 3 1 1 None None None]}).1
    = [true; false; false] ∧
  (∃ r', (lockJob "j1" "w1" 5
            {["j1" := mkRow "echo ok" pending 0 3 1 1 None None None]}).2
           !! "j1" = Some r' ∧
     state r' = processing ∧ worker_id r' = Some "w1") ∧
  (lockJob "j1" "w1" 5
     {["j1" := mkRow "echo ok" pending 0 3 1 1 None None None]}).2 !! "j2"
    = ({["j1" := mkRow "echo ok" pending 0 3 1 1 None None None]}
         : gmap string Row) !! "j2" ∧
  (lockJob "j1" "w2" 6
     {["j1" := mkRow "echo ok" processing 0 3 1 5 None (Some "w1") None]}).2
    = {["j1" := mkRow "echo ok" processing 0 3 1 5 None (Some "w1") None]}.
Proof.
  pose proof (lockJob_claims_exactly_once
    {["j1" := mkRow "echo ok" pending 0 3 1 1 None None None]} "j1" "w1" 5)
    as (_ & H2 & H3 & _ & H5).
  split; [|split; [|split]].
  - destruct (H5 [("w2", 6); ("w3", 7)]) as (H & _); [reflexivity | exact H].
  - destruct (H2 (mkRow "echo ok" pending 0 3 1 1 None None None))
      as (r' & Hr' & Hs & Hw & _); [reflexivity | reflexivity |].
    exists r'. auto.
  - apply (H3 "j2"). discriminate.
  - apply (lockJob_claims_exactly_once
      {["j1" := mkRow "echo ok" processing 0 3 1 5 None (Some "w1") None]}
      "j1" "w2" 6).
    reflexivity.
Defined.

(** ** C6: manual retry from the dead-letter queue *)

(** C6. [retryFromDLQ] on a dead job returns the updated job, now pending
    with [attempts = 0] and [next_retry_at], [error_message] NULL; the other
    columns (but [updated_at]) and the other rows are as before.  On an
    absent id or a job that is not dead it returns [null] and the table is
    unchanged. *)
Theorem retryFromDLQ_resets_dead_only (db : gmap string Row) (i : string)
    (now : Z) :
  (∀ r, db !! i = Some r → state r = dead →
     ∃ r', Storage.retryFromDLQ i now db
             = (Some (mkJob i r'), <[i := r']> db) ∧
       state r' = pending ∧ attempts r' = 0 ∧
       next_retry_at r' = None ∧ error_message r' = None ∧
       command r' = command r ∧ max_retries r' = max_retries r ∧
       created_at r' = created_at r ∧ worker_id r' = worker_id r ∧
       updated_at r' = now) ∧
  (state <$> db !! i ≠ Some dead →
     Storage.retryFromDLQ i now db = (None, db)).
Proof.
  split.
  - intros r Hr Hd. unfold Storage.retryFromDLQ, getJob. rewrite Hr. simpl.
    destruct (decide (state r = dead)); [|done].
    unfold updateJob, getJob. rewrite lookup_alter_eq, Hr. simpl.
    eexists. split.
    + f_equal. apply map_eq; intros k. destruct (decide (i = k)) as [->|].
      * by rewrite lookup_alter_eq, lookup_insert_eq, Hr.
      * by rewrite lookup_alter_ne, lookup_insert_ne.
    + by simpl.
  - intros Hn. unfold Storage.retryFromDLQ, getJob.
    destruct (db !! i) as [r|]; [|done]. simpl in *.
    destruct (decide (state r = dead)) as [E|]; [|done].
    by rewrite E in Hn.
Qed.

(** A dead job is revived; a failed one is refused. *)
Lemma retryFromDLQ_resets_dead_only_witness :
  (∃ r', (Storage.retryFromDLQ "j1" 900
            {["j1" := mkRow "exit 1" dead 3 3 1 500 None None (Some "boom")]}).1
           = Some (mkJob "j1" r') ∧
     state r' = pending ∧ attempts r' = 0 ∧
     next_retry_at r' = None ∧ error_message r' = None) ∧
  Storage.retryFromDLQ "j1" 900
     {["j1" := mkRow "exit 1" failed 1 3 1 500 (Some 2500) None (Some "boom")]}
    = (None,
       {["j1" := mkRow "exit 1" failed 1 3 1 500 (Some 2500) None (Some "boom")]}).
Proof.
  split.
  - destruct (retryFromDLQ_resets_dead_only
      {["j1" := mkRow "exit 1" dead 3 3 1 500 None None (Some "boom")]}
      "j1" 900) as [H _].
    destruct (H (mkRow "exit 1" dead 3 3 1 500 None None (Some "boom")))
      as (r' & Heq & H1 & H2 & H3 & H4 & _); [reflexivity | reflexivity |].
    exists r'. rewrite Heq. auto.
  - apply (retryFromDLQ_resets_dead_only
      {["j1" := mkRow "exit 1" failed 1 3 1 500 (Some 2500) None (Some "boom")]}
      "j1" 900).
    vm_compute. discriminate.
Defined.

(** ** C10: what a successful execution writes *)

(** The row a successful [executeJob] leaves behind. *)
Lemma executeJob_resolved_row (db : gmap string Row) (job : Job) (w : string)
    (so se : string) (cfg : ConfigTable) (tl tn tu : Z) (r : Row) :
  db !! id job = Some r → state r = pending →
  executeJob job w (Resolved so se) cfg tl tn tu db
  = (Success so se,
     <[id job := mkRow (command r) completed (attempts r) (max_retries r)
                       (created_at r) tu (next_retry_at r) None None]> db).
Proof.
  intros Hr Hp. unfold executeJob, lockJob. rewrite Hr.
  destruct (decide (state r = pending)); [|done]. simpl.
  unfold executeJob_resolved. f_equal. unfold updateJob; simpl.
  apply map_eq; intros k. destruct (decide (id job = k)) as [<-|].
  - by rewrite lookup_alter_eq, !lookup_insert_eq.
  - by rewrite lookup_alter_ne, !lookup_insert_ne.
Qed.

(** What [enqueue] stores when it succeeds. *)
Lemma enqueue_Enqueued (db db' : gmap string Row) (jobData : JobData)
    (cfg : ConfigTable) (tc tu ti : Z) (j : Job) :
  enqueue jobData cfg tc tu ti db = (Enqueued j, db') →
  d_id jobData = Some (id j) ∧ id j ≠ "" ∧ db !! id j = None ∧
  db' = <[id j := fields j]> db ∧
  fields j = mkRow (default "" (d_command jobData)) pending 0
               (js_or_num (Some (js_or_num (d_max_retries jobData)
                                           (Config.getMaxRetries cfg))) 3)
               tc tu None None None.
Proof.
  unfold enqueue. destruct (d_id jobData) as [i|] eqn:Ei; simpl; [|done].
  case_bool_decide as Hi; [done|].
  destruct (js_not_str (d_command jobData)); [done|].
  unfold getJob at 1. destruct (db !! i) as [r|] eqn:E; [done|].
  unfold createJob. simpl. rewrite E. unfold getJob.
  rewrite lookup_insert_eq. intros [= <- <-]. simpl. done.
Qed.

(** C10. When the command of a claimed job succeeds, [executeJob] leaves the
    job completed with [worker_id] and [error_message] NULL and a fresh
    [updated_at]; [command], [attempts], [max_retries], [created_at] and
    [next_retry_at] are what they were, and no other row changes.  So a
    freshly enqueued job that succeeds at once is completed with
    [attempts = 0]. *)
Theorem executeJob_success_frame :
  (∀ (db : gmap string Row) job w so se cfg tl tn tu r,
     db !! id job = Some r → state r = pending →
     (executeJob job w (Resolved so se) cfg tl tn tu db).1 = Success so se ∧
     (∃ r', (executeJob job w (Resolved so se) cfg tl tn tu db).2 !! id job
              = Some r' ∧
        state r' = completed ∧ worker_id r' = None ∧
        error_message r' = None ∧ updated_at r' = tu ∧
        command r' = command r ∧ attempts r' = attempts r ∧
        max_retries r' = max_retries r ∧ created_at r' = created_at r ∧
        next_retry_at r' = next_retry_at r) ∧
     (∀ k, k ≠ id job →
        (executeJob job w (Resolved so se) cfg tl tn tu db).2 !! k = db !! k)) ∧
  (∀ (db db1 : gmap string Row) jobData cfg tc tu0 ti j w so se tl tn tu,
     enqueue jobData cfg tc tu0 ti db = (Enqueued j, db1) →
     ∃ r', (executeJob j w (Resolved so se) cfg tl tn tu db1).2 !! id j
             = Some r' ∧
       state r' = completed ∧ attempts r' = 0).
Proof.
  split.
  - intros db job w so se cfg tl tn tu r Hr Hp.
    rewrite (executeJob_resolved_row db job w so se cfg tl tn tu r Hr Hp).
    simpl. split; [done|]. split.
    + rewrite lookup_insert_eq. eexists. split; [done|]. by simpl.
    + intros k Hk. by rewrite lookup_insert_ne.
  - intros db db1 jobData cfg tc tu0 ti j w so se tl tn tu He.
    apply enqueue_Enqueued in He as (_ & _ & _ & -> & Hf).
    rewrite (executeJob_resolved_row _ j w so se cfg tl tn tu (fields j));
      [|by rewrite lookup_insert_eq|by rewrite Hf].
    simpl. rewrite lookup_insert_eq. eexists. split; [done|].
    by rewrite Hf.
Qed.

(** [echo ok] enqueued and run once. *)
Lemma executeJob_success_frame_witness :
  (∃ r', (executeJob
            (mkJob "j2" (mkRow "echo ok" pending 0 3 10 11 None None None))
            "w1" (Resolved "ok" "") Config.initial 20 21 22
            {["j2" := mkRow "echo ok" pending 0 3 10 11 None None None]}).2
           !! "j2" = Some r' ∧
     state r' = completed ∧ attempts r' = 0) ∧
  (executeJob
     (mkJob "j2" (mkRow "echo ok" pending 0 3 10 11 None None None))
     "w1" (Resolved "ok" "") Config.initial 20 21 22
     {["j2" := mkRow "echo ok" pending 0 3 10 11 None None None]}).1
    = Success "ok" "".
Proof.
  destruct executeJob_success_frame as [H1 H2]. split.
  - apply (H2 ∅ _ (mkJobData (Some "j2") (Some "echo ok") None) Config.initial
             10 11 12).
    reflexivity.
  - apply (H1 {["j2" := mkRow "echo ok" pending 0 3 10 11 None None None]}
             (mkJob "j2" (mkRow "echo ok" pending 0 3 10 11 None None None))
             "w1" "ok" "" Config.initial 20 21 22
             (mkRow "echo ok" pending 0 3 10 11 None None None));
      reflexivity.
Defined.

(** ** C7: [max_retries] at creation *)


(** C7, as the code has it.  A descriptor with [max_retries: 0] is stored
    with the configured default 3, not with 0; and with the configured
    default set to 0, a descriptor without [max_retries] is stored with 3. *)
Theorem enqueue_zero_max_retries_replaced :
  (enqueue (mkJobData (Some "j0") (Some "true") (Some 0))
           (mkConfig (Some 3) (Some (2 # 1)%Q)) 10 10 10 ∅).1
    = Enqueued (mkJob "j0" (mkRow "true" pending 0 3 10 10 None None None)) ∧
  (enqueue (mkJobData (Some "j0") (Some "true") None)
           (mkConfig (Some 0) (Some (2 # 1)%Q)) 10 10 10 ∅).1
    = Enqueued (mkJob "j0" (mkRow "true" pending 0 3 10 10 None None None)).
Proof. split; reflexivity. Qed.

(** ** C5: choosing the next job *)

Section selection.
Implicit Types (db : gmap string Row) (j m : Job) (l : list Job).

Lemma elem_of_all_jobs db j : j ∈ all_jobs db ↔ in_table db j.
Proof.
  unfold all_jobs, in_table. rewrite list_elem_of_fmap. split.
  - intros ([k r] & -> & H). by apply elem_of_map_to_list in H.
  - intros H. exists (id j, fields j). split; [by destruct j|].
    by apply elem_of_map_to_list.
Qed.

Lemma is_retryable_spec now j : is_retryable now j = true ↔ retryable_at now j.
Proof.
  unfold is_retryable, retryable_at.
  rewrite !andb_true_iff, bool_decide_eq_true, Z.ltb_lt.
  destruct (next_retry_at j) as [t|].
  - split.
    + intros [[? ?] ?]. eauto 6.
    + intros (? & ? & [?|(t' & [= <-] & ?)]); done.
  - split; [intros [[? ?] _]; eauto | intros (? & ? & _); done].
Qed.

(** The order of the texts is a total preorder. *)
Lemma lex3_le_trans a b c :
  lex3_le a b = true → lex3_le b c = true → lex3_le a c = true.
Proof.
  destruct a as [[a1 a2] a3], b as [[b1 b2] b3], c as [[c1 c2] c3].
  unfold lex3_le.
  rewrite !orb_true_iff, !andb_true_iff, !orb_true_iff, !andb_true_iff,
    !Z.ltb_lt, !Z.eqb_eq, !Z.leb_le.
  lia.
Qed.

Lemma lex3_le_total a b : lex3_le a b = false → lex3_le b a = true.
Proof.
  destruct a as [[a1 a2] a3], b as [[b1 b2] b3]. unfold lex3_le.
  rewrite !orb_false_iff, !andb_false_iff, !orb_false_iff, !andb_false_iff,
    !orb_true_iff, !andb_true_iff, !orb_true_iff, !andb_true_iff,
    !Z.ltb_lt, !Z.ltb_ge, !Z.eqb_eq, !Z.eqb_neq, !Z.leb_le, !Z.leb_gt.
  lia.
Qed.

(** Between dates of four-digit years the order of the texts is the order
    of the instants. *)
Lemma iso_text_le_four_digit a b :
  four_digit_year a → four_digit_year b →
  iso_text_le a b = (a <=? b).
Proof.
  unfold four_digit_year, iso_text_le, iso_key. intros Ha Hb.
  rewrite (proj2 (Z.ltb_ge a YEAR_0)), (proj2 (Z.ltb_lt a YEAR_10000)),
    (proj2 (Z.ltb_ge b YEAR_0)), (proj2 (Z.ltb_lt b YEAR_10000)) by lia.
  reflexivity.
Qed.

(** A date beyond year 9999 sorts before every date of a four-digit
    year. *)
Lemma iso_text_le_beyond a b :
  YEAR_10000 ≤ a → four_digit_year b → iso_text_le a b = true.
Proof.
  unfold four_digit_year, iso_text_le, iso_key. intros Ha Hb.
  assert (YEAR_0 < YEAR_10000) by done.
  rewrite (proj2 (Z.ltb_ge a YEAR_0)), (proj2 (Z.ltb_ge a YEAR_10000)),
    (proj2 (Z.ltb_ge b YEAR_0)), (proj2 (Z.ltb_lt b YEAR_10000)) by lia.
  reflexivity.
Qed.

Lemma retryable_at_due now (r : Row) :
  four_digit_year now →
  (∀ t, next_retry_at r = Some t → four_digit_year t) →
  (retryable_at now r ↔ due_at now r).
Proof.
  intros Hn Ht. unfold retryable_at, due_at.
  split; intros (Hs & Ha & [Hnone|(t & Hsome & Hle)]); eauto.
  - rewrite (iso_text_le_four_digit t now) in Hle by auto.
    apply Z.leb_le in Hle. eauto 6.
  - split; [done|]. split; [done|]. right. exists t. split; [done|].
    rewrite (iso_text_le_four_digit t now) by auto. by apply Z.leb_le.
Qed.

Lemma null_first_le_not_later (a b : option Z) :
  (∀ t, a = Some t → four_digit_year t) →
  (∀ t, b = Some t → four_digit_year t) →
  null_first_le a b = true → not_later a b.
Proof.
  intros Ha Hb. destruct a as [x|], b as [y|]; simpl; try done.
  rewrite (iso_text_le_four_digit x y) by auto. by intros ?%Z.leb_le.
Qed.

Section least.
Variable le : Job → Job → bool.
Hypothesis le_trans : ∀ a b c, le a b = true → le b c = true → le a c = true.
Hypothesis le_total : ∀ a b, le a b = false → le b a = true.

Lemma order_by_limit1_elem l m : order_by_limit1 le l = Some m → m ∈ l.
Proof.
  revert m. induction l as [|j l IH]; intros m; simpl; [done|].
  destruct (order_by_limit1 le l) as [m'|].
  - destruct (le j m'); intros [= <-];
      [apply list_elem_of_here | apply list_elem_of_further; auto].
  - intros [= <-]. apply list_elem_of_here.
Qed.

Lemma order_by_limit1_nonempty l j :
  j ∈ l → is_Some (order_by_limit1 le l).
Proof.
  destruct l as [|j' l]; [by intros ?%elem_of_nil|]. intros _. simpl.
  destruct (order_by_limit1 le l) as [m'|]; [destruct (le j' m')|]; eauto.
Qed.

Lemma le_refl a : le a a = true.
Proof using le_total.
  destruct (le a a) eqn:E; [done|].
  pose proof (le_total _ _ E). congruence.
Qed.

Lemma order_by_limit1_least l m x :
  order_by_limit1 le l = Some m → x ∈ l → le m x = true.
Proof using le_trans le_total.
  revert m. induction l as [|j l IH]; intros m; simpl; [done|].
  intros Hm Hx. apply elem_of_cons in Hx.
  destruct (order_by_limit1 le l) as [m'|] eqn:E.
  - destruct (le j m') eqn:Hj; injection Hm as <-.
    + destruct Hx as [->|Hx]; [apply le_refl|].
      eapply le_trans; [exact Hj | by apply IH].
    + destruct Hx as [->|Hx]; [by apply le_total | by apply IH].
  - injection Hm as <-. destruct Hx as [->|Hx]; [apply le_refl|].
    apply (order_by_limit1_nonempty l x) in Hx. rewrite E in Hx.
    by destruct Hx.
Qed.
End least.

Lemma created_at_le_trans a b c :
  created_at_le a b = true → created_at_le b c = true →
  created_at_le a c = true.
Proof. unfold created_at_le. rewrite !Z.leb_le. lia. Qed.

Lemma created_at_le_total a b :
  created_at_le a b = false → created_at_le b a = true.
Proof. unfold created_at_le. rewrite Z.leb_le, Z.leb_gt. lia. Qed.

Lemma next_retry_at_le_trans a b c :
  next_retry_at_le a b = true → next_retry_at_le b c = true →
  next_retry_at_le a c = true.
Proof.
  unfold next_retry_at_le, null_first_le, iso_text_le.
  destruct (next_retry_at a), (next_retry_at b), (next_retry_at c);
    try done. apply lex3_le_trans.
Qed.

Lemma next_retry_at_le_total a b :
  next_retry_at_le a b = false → next_retry_at_le b a = true.
Proof.
  unfold next_retry_at_le, null_first_le, iso_text_le.
  destruct (next_retry_at a), (next_retry_at b); try done.
  apply lex3_le_total.
Qed.

Lemma getNextPendingJob_Some db j :
  getNextPendingJob db = Some j →
  in_table db j ∧ state j = pending ∧
  ∀ p, in_table db p → state p = pending → created_at j ≤ created_at p.
Proof.
  unfold getNextPendingJob. intros H.
  pose proof (order_by_limit1_elem _ _ _ H) as He.
  apply list_elem_of_filter in He as [Hp He].
  apply bool_decide_eq_true in Hp. apply elem_of_all_jobs in He.
  split; [done|]. split; [done|]. intros p Hin Hpp.
  apply Z.leb_le.
  apply (order_by_limit1_least _ created_at_le_trans created_at_le_total
           _ _ p H).
  apply list_elem_of_filter. split; [by apply bool_decide_eq_true|].
  by apply elem_of_all_jobs.
Qed.

Lemma getNextPendingJob_None db :
  getNextPendingJob db = None ↔ ∀ p, in_table db p → state p ≠ pending.
Proof.
  unfold getNextPendingJob. split.
  - intros H p Hin Hp.
    assert (p ∈ filter (λ j, is_pending j = true) (all_jobs db)) as Hf.
    { apply list_elem_of_filter.
      split; [by apply bool_decide_eq_true | by apply elem_of_all_jobs]. }
    apply (order_by_limit1_nonempty created_at_le) in Hf.
    rewrite H in Hf. by destruct Hf.
  - intros H.
    destruct (order_by_limit1 _ _) as [m|] eqn:E; [|done].
    apply getNextPendingJob_Some in E as (Hin & Hp & _).
    by destruct (H m Hin).
Qed.

Lemma getRetryableJobs_Some now db j :
  getRetryableJobs now db = Some j →
  in_table db j ∧ retryable_at now j ∧
  ∀ f, in_table db f → retryable_at now f →
       null_first_le (next_retry_at j) (next_retry_at f) = true.
Proof.
  unfold getRetryableJobs. intros H.
  pose proof (order_by_limit1_elem _ _ _ H) as He.
  apply list_elem_of_filter in He as [Hp He].
  apply is_retryable_spec in Hp. apply elem_of_all_jobs in He.
  split; [done|]. split; [done|]. intros f Hin Hf.
  apply (order_by_limit1_least _ next_retry_at_le_trans
           next_retry_at_le_total _ _ f H).
  apply list_elem_of_filter. split; [by apply is_retryable_spec|].
  by apply elem_of_all_jobs.
Qed.

Lemma getRetryableJobs_None now db :
  getRetryableJobs now db = None ↔
  ∀ f, in_table db f → ¬ retryable_at now f.
Proof.
  unfold getRetryableJobs. split.
  - intros H f Hin Hf.
    assert (f ∈ filter (λ j, is_retryable now j = true) (all_jobs db)) as Hx.
    { apply list_elem_of_filter.
      split; [by apply is_retryable_spec | by apply elem_of_all_jobs]. }
    apply (order_by_limit1_nonempty next_retry_at_le) in Hx.
    rewrite H in Hx. by destruct Hx.
  - intros H.
    destruct (order_by_limit1 _ _) as [m|] eqn:E; [|done].
    apply getRetryableJobs_Some in E as (Hin & Hp & _).
    by destruct (H m Hin).
Qed.

End selection.

(** What [getNextJob] does, in the order of the texts that SQLite
    compares. *)
Lemma getNextJob_cases (db : gmap string Row) (tq tu : Z) :
  (∀ p, in_table db p → state p = pending →
     ∃ j, getNextJob tq tu db = (Some j, db) ∧
       in_table db j ∧ state j = pending ∧
       ∀ p', in_table db p' → state p' = pending →
             created_at j ≤ created_at p') ∧
  ((∀ p, in_table db p → state p ≠ pending) →
   ∀ f, in_table db f → retryable_at tq f →
     ∃ j r',
       in_table db j ∧ retryable_at tq j ∧
       (∀ f', in_table db f' → retryable_at tq f' →
              null_first_le (next_retry_at j) (next_retry_at f') = true) ∧
       getNextJob tq tu db = (Some (mkJob (id j) r'), <[id j := r']> db) ∧
       r' = mkRow (command j) pending (attempts j) (max_retries j)
                  (created_at j) tu None (worker_id j) (error_message j)) ∧
  ((∀ p, in_table db p → state p ≠ pending ∧ ¬ retryable_at tq p) →
     getNextJob tq tu db = (None, db)).
Proof.
  split; [|split].
  - intros p Hin Hp. unfold getNextJob.
    destruct (getNextPendingJob db) as [j|] eqn:E.
    + apply getNextPendingJob_Some in E as (? & ? & ?). eauto.
    + rewrite getNextPendingJob_None in E. by destruct (E p Hin).
  - intros Hnp f Hin Hf. unfold getNextJob.
    apply getNextPendingJob_None in Hnp. rewrite Hnp.
    destruct (getRetryableJobs tq db) as [j|] eqn:E.
    + apply getRetryableJobs_Some in E as (Hj & Hr & Hleast).
      exists j. eexists. split; [done|]. split; [done|]. split; [done|].
      split; [|reflexivity].
      unfold updateJob, getJob; simpl. unfold in_table in Hj.
      rewrite lookup_alter_eq, Hj. simpl. f_equal.
      apply map_eq; intros k. destruct (decide (id j = k)) as [<-|].
      * by rewrite lookup_alter_eq, lookup_insert_eq, Hj.
      * by rewrite lookup_alter_ne, lookup_insert_ne.
    + rewrite getRetryableJobs_None in E. by destruct (E f Hin).
  - intros H. unfold getNextJob.
    assert (getNextPendingJob db = None) as ->.
    { apply getNextPendingJob_None. intros p Hp. by apply H. }
    assert (getRetryableJobs tq db = None) as ->; [|done].
    apply getRetryableJobs_None. intros p Hp. by apply H.
Qed.

(** C5, as the code has it.  With [backoff-base] 10^12 the first failure of
    a job, at a clock of late 2026, stores a retry instant in year 33715,
    whose text begins with ['+'].  A second later that instant is far from
    reached, yet [getNextJob] finds the job retryable, re-queues it and
    returns it, where the claim has it return nothing and write nothing; and
    of two failed jobs it prefers this one to a job whose retry is due. *)
Theorem getNextJob_hands_out_retry_beyond_year_9999 :
  executeJob
    (mkJob "j1" (mkRow "exit 1" pending 0 3 1792999990000 1792999990000
                       None None None))
    "w1" (Rejected (Some "boom")) far_config
    1793000000000 1793000000005 1793000000006
    (enqueue (mkJobData (Some "j1") (Some "exit 1") (Some 3)) far_config
             1792999990000 1792999990000 1792999990000 ∅).2
  = (Failure "boom" 1 (Some 1001793000000005), {["j1" := far_retry]}) ∧
  1793000001000 < 1001793000000005 ∧
  getNextJob 1793000001000 1793000001001 {["j1" := far_retry]}
  = (Some (mkJob "j1" (requeued 1793000001001 far_retry)),
     {["j1" := requeued 1793000001001 far_retry]}) ∧
  (getNextJob 1793000001000 1793000001001
     {["a" := near_retry; "b" := far_retry]}).1
  = Some (mkJob "b" (requeued 1793000001001 far_retry)).
Proof.
  split; [vm_compute; reflexivity|]. split; [reflexivity|].
  split; vm_compute; reflexivity.
Qed.

(** ** Invariants of the reachable stores *)

Section preservation.
Implicit Types (db : gmap string Row) (i k : string) (r : Row).
Variable P : Row → Prop.

Lemma all_rows_insert db i r : all_rows P db → P r → all_rows P (<[i := r]> db).
Proof.
  intros H Hr k r'. destruct (decide (i = k)) as [->|].
  - rewrite lookup_insert_eq. by intros [= <-].
  - rewrite lookup_insert_ne by done. apply H.
Qed.

Lemma updateJob_all_rows db i u now :
  all_rows P db →
  (∀ r, db !! i = Some r → P r → P (apply_updates u now r)) →
  all_rows P (updateJob i u now db).2.
Proof.
  intros H Hu k r'. destruct (decide (i = k)) as [->|].
  - rewrite updateJob_lookup. destruct (db !! k) as [r|] eqn:E; [|done].
    intros [= <-]. apply Hu; [done | by eapply H].
  - rewrite updateJob_lookup_ne by done. apply H.
Qed.

Lemma lockJob_all_rows db i w now :
  all_rows P db →
  (∀ r, db !! i = Some r → state r = pending →
     P (mkRow (command r) processing (attempts r) (max_retries r)
              (created_at r) now (next_retry_at r) (Some w)
              (error_message r))) →
  all_rows P (lockJob i w now db).2.
Proof.
  intros H Hl. unfold lockJob. destruct (db !! i) as [r|] eqn:E; [|done].
  destruct (decide (state r = pending)); [|done]. simpl.
  apply all_rows_insert; auto.
Qed.

Lemma enqueue_all_rows db jobData cfg tc tu ti :
  all_rows P db →
  (∀ c m, P (mkRow c pending 0 m tc tu None None None)) →
  all_rows P (enqueue jobData cfg tc tu ti db).2.
Proof.
  intros H Hn. unfold enqueue.
  destruct (js_not_str (d_id jobData)); [done|].
  destruct (js_not_str (d_command jobData)); [done|].
  destruct (getJob _ db) eqn:E; [done|]. apply getJob_None in E.
  unfold createJob. simpl. rewrite E. unfold getJob.
  rewrite lookup_insert_eq. simpl. apply all_rows_insert; auto.
Qed.

Lemma getNextJob_all_rows db tq tu :
  all_rows P db →
  (∀ r, retryable_at tq r → P r → P (apply_updates requeue_updates tu r)) →
  all_rows P (getNextJob tq tu db).2.
Proof.
  intros H Hq. unfold getNextJob.
  destruct (getNextPendingJob db); [done|].
  destruct (getRetryableJobs tq db) as [j|] eqn:E; [|done].
  apply getRetryableJobs_Some in E as (Hin & Hr & _). simpl.
  apply updateJob_all_rows; [done|]. intros r Hl.
  unfold in_table in Hin. rewrite Hin in Hl. injection Hl as <-. auto.
Qed.

Lemma retryFromDLQ_all_rows db i now :
  all_rows P db →
  (∀ r, state r = dead → P r →
     P (apply_updates (mkUpdates (Some pending) (Some 0) (Some None) None
                                 (Some None)) now r)) →
  all_rows P (Storage.retryFromDLQ i now db).2.
Proof.
  intros H Hd. unfold Storage.retryFromDLQ.
  destruct (getJob i db) as [j|] eqn:E; [|done].
  apply getJob_Some in E as [<- E].
  destruct (decide (state j = dead)); [|done].
  apply updateJob_all_rows; [done|]. intros r Hl.
  rewrite E in Hl. injection Hl as <-. auto.
Qed.

End preservation.

Section immutability.
Implicit Types (db : gmap string Row) (i k : string) (r : Row).

Lemma keeps_refl db : keeps_max_retries db db.
Proof. intros k r H. eauto. Qed.

Lemma updateJob_keeps db i u now :
  keeps_max_retries db (updateJob i u now db).2.
Proof.
  intros k r H. destruct (decide (i = k)) as [->|].
  - rewrite updateJob_lookup, H. simpl. eauto.
  - rewrite updateJob_lookup_ne by done. eauto.
Qed.

Lemma lockJob_keeps db i w now : keeps_max_retries db (lockJob i w now db).2.
Proof.
  intros k r H. unfold lockJob. destruct (db !! i) as [r0|] eqn:E; [|eauto].
  destruct (decide (state r0 = pending)); [|eauto]. simpl.
  destruct (decide (i = k)) as [->|].
  - rewrite lookup_insert_eq. rewrite E in H. injection H as ->. eauto.
  - rewrite lookup_insert_ne by done. eauto.
Qed.

Lemma enqueue_keeps db jobData cfg tc tu ti :
  keeps_max_retries db (enqueue jobData cfg tc tu ti db).2.
Proof.
  unfold enqueue.
  destruct (js_not_str (d_id jobData)); [apply keeps_refl|].
  destruct (js_not_str (d_command jobData)); [apply keeps_refl|].
  destruct (getJob _ db) eqn:E; [apply keeps_refl|]. apply getJob_None in E.
  unfold createJob. simpl. rewrite E. unfold getJob.
  rewrite lookup_insert_eq. simpl. intros k r H.
  rewrite lookup_insert_ne by congruence. eauto.
Qed.

Lemma getNextJob_keeps db tq tu :
  keeps_max_retries db (getNextJob tq tu db).2.
Proof.
  unfold getNextJob. destruct (getNextPendingJob db); [apply keeps_refl|].
  destruct (getRetryableJobs tq db); [|apply keeps_refl].
  apply updateJob_keeps.
Qed.

Lemma executeJob_rejected_keeps db job message cfg tn tu :
  keeps_max_retries db (executeJob_rejected job message cfg tn tu db).2.
Proof.
  unfold executeJob_rejected. destruct (_ >=? _); [apply updateJob_keeps|].
  destruct (Date_toISOString _); [apply updateJob_keeps | apply keeps_refl].
Qed.

Lemma retryFromDLQ_keeps db i now :
  keeps_max_retries db (Storage.retryFromDLQ i now db).2.
Proof.
  unfold Storage.retryFromDLQ. destruct (getJob i db); [|apply keeps_refl].
  destruct (decide _); [apply updateJob_keeps | apply keeps_refl].
Qed.

Lemma call_keeps s s' : call s s' → keeps_max_retries (jobs s) (jobs s').
Proof.
  destruct 1; simpl.
  - apply enqueue_keeps.
  - apply getNextJob_keeps.
  - apply lockJob_keeps.
  - apply updateJob_keeps.
  - apply executeJob_rejected_keeps.
  - apply updateJob_keeps.
  - apply retryFromDLQ_keeps.
Qed.

Lemma step_keeps s s' : step s s' → keeps_max_retries (jobs s) (jobs s').
Proof.
  destruct 1; simpl;
    [by apply call_keeps | apply keeps_refl | apply updateJob_keeps
    | apply keeps_refl | apply keeps_refl | apply updateJob_keeps].
Qed.

End immutability.

(** A job that [getNextJob] returns is a row of the table it leaves. *)
Lemma getNextJob_returned (db : gmap string Row) (tq tu : Z) (j : Job) :
  (getNextJob tq tu db).1 = Some j → in_table (getNextJob tq tu db).2 j.
Proof.
  unfold getNextJob. destruct (getNextPendingJob db) as [p|] eqn:Ep.
  - simpl. intros [= <-]. by apply getNextPendingJob_Some in Ep as (? & _).
  - destruct (getRetryableJobs tq db) as [f|]; [|done]. simpl.
    intros H. apply getJob_Some in H as [Hid H]. unfold in_table.
    by rewrite Hid.
Qed.

Ltac row_cases :=
  unfold owned_iff_processing, failed_is_scheduled, retryable_at;
  simpl; intros; intuition (try congruence; try lia).

(** A call run to its end keeps [worker_id] on the processing rows only. *)
Lemma call_owned s s' :
  call s s' →
  all_rows owned_iff_processing (jobs s) →
  all_rows owned_iff_processing (jobs s').
Proof.
  intros Hs H. destruct Hs; simpl.
  - apply enqueue_all_rows; [done|]. row_cases.
  - apply getNextJob_all_rows; [done|]. row_cases.
  - apply lockJob_all_rows; [done|]. row_cases.
  - apply updateJob_all_rows; [done|]. row_cases.
  - unfold executeJob_rejected. destruct (_ >=? _).
    + apply updateJob_all_rows; [done|]. row_cases.
    + destruct (Date_toISOString _); [|done].
      apply updateJob_all_rows; [done|]. row_cases.
  - apply updateJob_all_rows; [done|]. row_cases.
  - apply retryFromDLQ_all_rows; [done|]. row_cases.
Qed.

Lemma serially_reachable_owned s :
  serially_reachable s → all_rows owned_iff_processing (jobs s).
Proof.
  unfold serially_reachable. revert s. apply rtc_ind_r.
  - intros k r Hr. simpl in Hr. by rewrite lookup_empty in Hr.
  - intros s s' _ Hs Ho. by eapply call_owned.
Qed.

Lemma serially_reachable_reachable s : serially_reachable s → reachable s.
Proof.
  unfold serially_reachable, reachable.
  induction 1 as [|s1 s2 s3 H12 _ IH]; [apply rtc_refl|].
  eapply rtc_l; [by apply step_call | done].
Qed.

Lemma step_handed_known s s' : step s s' → handed_known s → handed_known s'.
Proof.
  intros Hs H j Hj.
  assert (j ∈ handed s → ∃ r, jobs s' !! id j = Some r ∧
                              max_retries r = max_retries j) as Hold.
  { intros Hin. destruct (H j Hin) as (r & Hr & Hm).
    destruct (step_keeps s s' Hs _ _ Hr) as (r' & Hr' & Hm').
    exists r'. split; [done | congruence]. }
  destruct Hs as [s s' Hc|s tq job Hsel|s job tu Hin|s job j' Hin Hget
                 |s i Hd|s i now Hin]; simpl in *; auto.
  - destruct Hc; simpl in *; auto.
    destruct (getNextJob tq tu (jobs s)).1 as [j'|] eqn:E; simpl in Hj; auto.
    apply elem_of_cons in Hj as [->|Hj]; auto.
    apply getNextJob_returned in E. eauto.
  - apply elem_of_cons in Hj as [->|Hj]; auto.
    apply getJob_Some in Hget as [Hid Hrow]. rewrite Hid. eauto.
Qed.

Lemma step_failed_scheduled s s' :
  step s s' → handed_known s →
  all_rows failed_is_scheduled (jobs s) →
  all_rows failed_is_scheduled (jobs s').
Proof.
  intros Hs Hk H.
  destruct Hs as [s s' Hc|s tq job Hsel|s job tu Hin|s job j' Hin Hget
                 |s i Hd|s i now Hin]; simpl; auto.
  - destruct Hc as [| | | |s job message cfg tn tu Hin| |]; simpl.
    + apply enqueue_all_rows; [done|]. row_cases.
    + apply getNextJob_all_rows; [done|]. row_cases.
    + apply lockJob_all_rows; [done|]. row_cases.
    + apply updateJob_all_rows; [done|]. row_cases.
    + unfold executeJob_rejected.
      destruct (attempts job + 1 >=? max_retries job) eqn:Hge.
      * apply updateJob_all_rows; [done|]. row_cases.
      * destruct (Date_toISOString _); [|done].
        apply updateJob_all_rows; [done|]. intros r Hr _.
        destruct (Hk job Hin) as (r0 & Hr0 & Hm).
        rewrite Hr in Hr0. injection Hr0 as <-.
        rewrite Z.geb_leb, Z.leb_gt in Hge.
        unfold failed_is_scheduled. simpl. intros _. split; [done | lia].
    + apply updateJob_all_rows; [done|]. row_cases.
    + apply retryFromDLQ_all_rows; [done|]. row_cases.
  - apply updateJob_all_rows; [done|]. row_cases.
  - apply updateJob_all_rows; [done|]. row_cases.
Qed.

Lemma reachable_invariants s :
  reachable s →
  handed_known s ∧ all_rows failed_is_scheduled (jobs s).
Proof.
  unfold reachable. revert s. apply rtc_ind_r.
  - split.
    + intros j Hj. by apply elem_of_nil in Hj.
    + intros k r Hr. simpl in Hr. by rewrite lookup_empty in Hr.
  - intros s s' _ Hs (Hk & Hf). split.
    + by eapply step_handed_known.
    + by eapply step_failed_scheduled.
Qed.

Lemma sample_claimed_serial : serially_reachable sample_claimed.
Proof.
  unfold serially_reachable.
  eapply rtc_l; [apply (call_enqueue initial
    (mkJobData (Some "j1") (Some "exit 1") (Some 3)) Config.initial 10 10 10)|].
  eapply rtc_l; [apply (call_getNextJob sample_enqueued 20 20)|].
  eapply rtc_l; [apply (call_claim sample_polled "j1" "w1" 21)|].
  apply rtc_refl.
Defined.

Lemma sample_failed_serial : serially_reachable sample_failed.
Proof.
  unfold serially_reachable. eapply rtc_r; [apply sample_claimed_serial|].
  apply (call_rejected sample_claimed sample_job (Some "boom") Config.initial
           30 31).
  apply list_elem_of_here.
Defined.

Lemma sample_failed_reachable : reachable sample_failed.
Proof. apply serially_reachable_reachable, sample_failed_serial. Defined.

(** ** C8: ownership *)

(** C8, as the code has it.  [getNextJob] re-queues a due retry by an
    UPDATE that carries no condition on the state it has read, and
    [retryFromDLQ] revives a dead job in the same way, while the claim of
    [lockJob] is a single guarded UPDATE.  When two workers read the same
    due retry, the first re-queues and claims it, and the second then
    re-queues it again: the row is pending with the [worker_id] of the
    first, who is running its command, and the next claim succeeds, so the
    command runs twice at a time.  Two [dlq retry] commands around a claim
    leave such a row as well. *)
Theorem stale_update_leaves_pending_row_owned :
  reachable race_requeued_again ∧
  jobs race_requeued_again !! "j1"
    = Some (mkRow "exit 1" pending 1 3 10 3003 None (Some "w2")
                  (Some "boom")) ∧
  (lockJob "j1" "w3" 3004 (jobs race_requeued_again)).1 = true ∧
  reachable revive_again ∧
  jobs revive_again !! "j2"
    = Some (mkRow "exit 1" pending 0 1 10 102 None (Some "w2") None).
Proof.
  assert (reachable race_requeued_again) as Hrace.
  { unfold reachable.
    eapply rtc_r; [eapply rtc_r; [eapply rtc_r; [eapply rtc_r;
      [eapply rtc_r; [eapply rtc_r; [apply sample_failed_reachable|]|]|]|]|]|].
    - apply (step_select sample_failed 3000 sample_due). vm_compute.
      reflexivity.
    - apply (step_select
               (mkSystem (jobs sample_failed) (handed sample_failed)
                         [sample_due] []) 3000 sample_due).
      vm_compute. reflexivity.
    - apply (step_requeue race_selected sample_due 3001).
      apply list_elem_of_here.
    - apply (step_reread race_requeued sample_due
               (mkJob "j1" (mkRow "exit 1" pending 1 3 10 3001 None None
                                  (Some "boom")))).
      + apply list_elem_of_here.
      + vm_compute. reflexivity.
    - apply step_call. apply (call_claim race_reread "j1" "w2" 3002).
    - apply (step_requeue race_claimed sample_due 3003).
      apply list_elem_of_here. }
  assert (reachable revive_again) as Hrevive.
  { unfold reachable.
    eapply rtc_l; [apply step_call; apply (call_enqueue initial
      (mkJobData (Some "j2") (Some "exit 1") (Some 1)) Config.initial
      10 10 10)|].
    eapply rtc_l; [apply step_call;
                   apply (call_getNextJob dlq_enqueued 20 20)|].
    eapply rtc_l; [apply step_call;
                   apply (call_claim dlq_polled "j2" "w1" 21)|].
    eapply rtc_l; [apply step_call;
                   apply (call_rejected dlq_claimed dlq_job (Some "boom")
                            Config.initial 30 31); apply list_elem_of_here|].
    eapply rtc_l; [apply (step_see_dead dlq_dead "j2"); vm_compute;
                   reflexivity|].
    eapply rtc_l; [apply (step_see_dead
                            (mkSystem (jobs dlq_dead) (handed dlq_dead) []
                                      ["j2"]) "j2"); vm_compute; reflexivity|].
    eapply rtc_l; [apply (step_revive revive_seen "j2" 100);
                   apply list_elem_of_here|].
    eapply rtc_l; [apply step_call;
                   apply (call_claim revive_first "j2" "w2" 101)|].
    eapply rtc_l; [apply (step_revive revive_claimed "j2" 102);
                   apply list_elem_of_here|].
    apply rtc_refl. }
  split; [exact Hrace|]. split; [vm_compute; reflexivity|].
  split; [vm_compute; reflexivity|]. split; [exact Hrevive|].
  vm_compute. reflexivity.
Qed.

(** ** C9: failed jobs are scheduled *)

(** C9. In every reachable store a failed row has a non-NULL
    [next_retry_at] and [attempts < max_retries]; so whatever
    [getRetryableJobs] selects has a retry instant, whose text is not
    greater than that of the clock reading (between dates of four-digit
    years: an instant that has passed): the [next_retry_at IS NULL]
    alternative of its WHERE clause selects nothing. *)
Theorem reachable_failed_is_scheduled (s : System) :
  reachable s →
  (∀ i r, jobs s !! i = Some r → state r = failed →
     next_retry_at r ≠ None ∧ attempts r < max_retries r) ∧
  (∀ now j, getRetryableJobs now (jobs s) = Some j →
     ∃ t, next_retry_at j = Some t ∧ iso_text_le t now = true ∧
          (four_digit_year t → four_digit_year now → t ≤ now)) ∧
  (∀ j, in_table (jobs s) j →
     ¬ (state j = failed ∧ attempts j < max_retries j ∧
        next_retry_at j = None)).
Proof.
  intros Hs. apply reachable_invariants in Hs as (_ & Hf).
  split; [|split].
  - intros i r Hr. exact (Hf i r Hr).
  - intros now j Hj. apply getRetryableJobs_Some in Hj as (Hin & Hr & _).
    destruct Hr as (Hst & _ & [Hn|(t & Ht & Hle)]).
    + by destruct (Hf _ _ Hin Hst) as [? _].
    + exists t. split; [done|]. split; [done|]. intros H1 H2.
      rewrite (iso_text_le_four_digit t now H1 H2) in Hle.
      by apply Z.leb_le.
  - intros j Hin (Hst & _ & Hn). by destruct (Hf _ _ Hin Hst) as [? _].
Qed.

(** The sample job after its first failure: failed, retry at 2030, 1 < 3;
    once due it is selected, through its retry instant. *)
Lemma reachable_failed_is_scheduled_witness :
  jobs sample_failed !! "j1"
    = Some (mkRow "exit 1" failed 1 3 10 31 (Some 2030) None (Some "boom")) ∧
  (Some 2030 ≠ None ∧ 1 < 3) ∧
  (∃ t, Some 2030 = Some t ∧ iso_text_le t 5000 = true ∧
        (four_digit_year t → four_digit_year 5000 → t ≤ 5000)) ∧
  ¬ (failed = failed ∧ 1 < 3 ∧ Some 2030 = @None Z).
Proof.
  destruct (reachable_failed_is_scheduled sample_failed
              sample_failed_reachable) as (H1 & H2 & H3).
  split; [reflexivity|]. split; [|split].
  - apply (H1 "j1"
      (mkRow "exit 1" failed 1 3 10 31 (Some 2030) None (Some "boom")));
      reflexivity.
  - apply (H2 5000
      (mkJob "j1"
         (mkRow "exit 1" failed 1 3 10 31 (Some 2030) None (Some "boom")))).
    reflexivity.
  - apply (H3
      (mkJob "j1"
         (mkRow "exit 1" failed 1 3 10 31 (Some 2030) None (Some "boom")))).
    reflexivity.
Defined.

(** ** Failed executions *)

(** What a failed execution of a pending job returns and leaves behind. *)
Lemma executeJob_rejected_row (db : gmap string Row) (job : Job) (w : string)
    (message : option string) (cfg : ConfigTable) (tl tn tu : Z) (r : Row) :
  db !! id job = Some r → state r = pending →
  executeJob job w (Rejected message) cfg tl tn tu db =
    if attempts job + 1 >=? max_retries job then
      (Failure (error_text message) (attempts job + 1) None,
       <[id job := mkRow (command r) dead (attempts job + 1) (max_retries r)
                         (created_at r) tu (next_retry_at r) None
                         (Some (error_text message))]> db)
    else
      match Date_toISOString (retry_instant cfg tn (attempts job + 1)) with
      | Some t =>
          (Failure (error_text message) (attempts job + 1) (Some t),
           <[id job := mkRow (command r) failed (attempts job + 1)
                             (max_retries r) (created_at r) tu (Some t) None
                             (Some (error_text message))]> db)
      | None =>
          (ThrowsRangeError,
           <[id job := mkRow (command r) processing (attempts r)
                             (max_retries r) (created_at r) tl
                             (next_retry_at r) (Some w) (error_message r)]> db)
      end.
Proof.
  intros Hr Hp. unfold executeJob, lockJob. rewrite Hr.
  destruct (decide (state r = pending)); [|done]. simpl.
  unfold executeJob_rejected, retry_instant, error_text.
  destruct (attempts job + 1 >=? max_retries job).
  - f_equal. unfold updateJob; simpl.
    apply map_eq; intros k. destruct (decide (id job = k)) as [<-|].
    + by rewrite lookup_alter_eq, !lookup_insert_eq.
    + by rewrite lookup_alter_ne, !lookup_insert_ne.
  - destruct (Date_toISOString _) as [t|]; [|done].
    f_equal. unfold updateJob; simpl.
    apply map_eq; intros k. destruct (decide (id job = k)) as [<-|].
    + by rewrite lookup_alter_eq, !lookup_insert_eq.
    + by rewrite lookup_alter_ne, !lookup_insert_ne.
Qed.

(** A job that is not pending cannot be claimed: [executeJob] returns
    [null] and writes nothing. *)
Lemma executeJob_lost_race (db : gmap string Row) (job : Job) (w : string)
    (outcome : ExecOutcome) (cfg : ConfigTable) (tl tn tu : Z) :
  state <$> db !! id job ≠ Some pending →
  executeJob job w outcome cfg tl tn tu db = (LostRace, db).
Proof.
  intros H. unfold executeJob.
  destruct (lockJob (id job) w tl db) as [ok db1] eqn:E.
  destruct ok.
  - destruct H. apply (lockJob_true db (id job) w tl). by rewrite E.
  - simpl. pose proof (lockJob_false db (id job) w tl) as Hf.
    rewrite E in Hf. simpl in Hf. by rewrite Hf.
Qed.

(** How one row can change in one step: by the state written and, for a
    row that becomes dead, by the call that wrote it. *)
Lemma updateJob_row (db : gmap string Row) (i k : string) (u : Updates)
    (now : Z) (r r' : Row) :
  db !! k = Some r → (updateJob i u now db).2 !! k = Some r' →
  r' = r ∨ (k = i ∧ r' = apply_updates u now r).
Proof.
  intros Hr. destruct (decide (i = k)) as [->|].
  - rewrite updateJob_lookup, Hr. simpl. intros [= <-]. auto.
  - rewrite updateJob_lookup_ne, Hr by done. intros [= <-]. auto.
Qed.

Lemma step_dead_only_by_exhaustion (s s' : System) (i : string) (r r' : Row) :
  step s s' → jobs s !! i = Some r → jobs s' !! i = Some r' →
  state r ≠ dead → state r' = dead →
  (∃ job message cfg tn tu,
      job ∈ handed s ∧ id job = i ∧
      jobs s' = (executeJob_rejected job message cfg tn tu (jobs s)).2 ∧
      attempts job + 1 >= max_retries job ∧
      attempts r' = attempts job + 1) ∨
  (∃ now, jobs s' = (moveToDLQ i now (jobs s)).2).
Proof.
  intros Hs Hr Hr' Hnd Hd.
  destruct Hs as [s s' Hc|s tq job Hsel|s job tu Hin|s job j' Hin Hget
                 |s i0 Hdead|s i0 now Hin]; simpl in *.
  2,4,5: exfalso; congruence.
  2,3: exfalso; destruct (updateJob_row _ _ _ _ _ _ _ Hr Hr') as [->|[_ ->]];
         [done | by simpl in Hd].
  destruct Hc as [s jobData cfg tc tu ti|s tq tu|s i0 w tl|s job so se tu
                 |s job message cfg tn tu Hin|s i0 now|s i0 now]; simpl in *.
  - exfalso. revert Hr'. unfold enqueue.
    destruct (js_not_str (d_id jobData)); [simpl; congruence|].
    destruct (js_not_str (d_command jobData)); [simpl; congruence|].
    destruct (getJob _ (jobs s)) eqn:E; [simpl; congruence|].
    apply getJob_None in E. unfold createJob. simpl. rewrite E.
    unfold getJob. rewrite lookup_insert_eq. simpl.
    rewrite lookup_insert_ne by congruence. congruence.
  - exfalso. revert Hr'. unfold getNextJob.
    destruct (getNextPendingJob (jobs s)); [simpl; congruence|].
    destruct (getRetryableJobs tq (jobs s)); [|simpl; congruence]. simpl.
    intros Hr'. destruct (updateJob_row _ _ _ _ _ _ _ Hr Hr') as [->|[_ ->]];
      [done | by simpl in Hd].
  - exfalso. revert Hr'. unfold lockJob.
    destruct (jobs s !! i0) as [r0|] eqn:E; [|simpl; congruence].
    destruct (decide (state r0 = pending)); [|simpl; congruence]. simpl.
    destruct (decide (i0 = i)) as [->|].
    + rewrite lookup_insert_eq. intros [= <-]. by simpl in Hd.
    + rewrite lookup_insert_ne by done. congruence.
  - exfalso. destruct (updateJob_row _ _ _ _ _ _ _ Hr Hr') as [->|[_ ->]];
      [done | by simpl in Hd].
  - left. exists job, message, cfg, tn, tu. revert Hr'.
    unfold executeJob_rejected.
    destruct (attempts job + 1 >=? max_retries job) eqn:Hge.
    + simpl. intros Hr'.
      destruct (updateJob_row _ _ _ _ _ _ _ Hr Hr') as [->|[-> ->]]; [done|].
      apply Z.geb_le in Hge. simpl. repeat split; auto; lia.
    + destruct (Date_toISOString _); simpl; [|congruence]. intros Hr'.
      destruct (updateJob_row _ _ _ _ _ _ _ Hr Hr') as [->|[_ ->]];
        [done | by simpl in Hd].
  - right. destruct (updateJob_row _ _ _ _ _ _ _ Hr Hr') as [->|[-> _]];
      [done | eauto].
  - exfalso. revert Hr'. unfold Queue.retryFromDLQ, Storage.retryFromDLQ.
    destruct (getJob i0 (jobs s)); [|simpl; congruence].
    destruct (decide _); [|simpl; congruence].
    intros Hr'. destruct (updateJob_row _ _ _ _ _ _ _ Hr Hr') as [->|[_ ->]];
      [done | by simpl in Hd].
Qed.

(** ** One job, one worker: consecutive failures *)

Section single_job.
Variables (i w : string) (message : option string) (cfg : ConfigTable).
Implicit Types (r : Row) (c : Clock) (cs : list Clock).

Lemma in_table_singleton r j :
  in_table {[i := r]} j ↔ j = mkJob i r.
Proof.
  unfold in_table. rewrite lookup_singleton_Some. destruct j as [k r0].
  simpl. split; [by intros [-> ->] | by intros [= -> ->]].
Qed.

Lemma getNextPendingJob_singleton r :
  getNextPendingJob {[i := r]}
  = if decide (state r = pending) then Some (mkJob i r) else None.
Proof.
  destruct (decide (state r = pending)) as [Hp|Hp].
  - destruct (getNextPendingJob _) as [j|] eqn:E.
    + apply getNextPendingJob_Some in E as (Hin & _).
      apply in_table_singleton in Hin. by subst.
    + rewrite getNextPendingJob_None in E.
      destruct (E (mkJob i r)); [by apply in_table_singleton | done].
  - apply getNextPendingJob_None. intros p Hin.
    apply in_table_singleton in Hin. by subst.
Qed.

Lemma getRetryableJobs_singleton now r :
  getRetryableJobs now {[i := r]}
  = if is_retryable now (mkJob i r) then Some (mkJob i r) else None.
Proof.
  destruct (is_retryable now (mkJob i r)) eqn:Hp.
  - apply is_retryable_spec in Hp.
    destruct (getRetryableJobs _ _) as [j|] eqn:E.
    + apply getRetryableJobs_Some in E as (Hin & _).
      apply in_table_singleton in Hin. by subst.
    + rewrite getRetryableJobs_None in E.
      destruct (E (mkJob i r)); [by apply in_table_singleton | done].
  - apply getRetryableJobs_None. intros p Hin.
    apply in_table_singleton in Hin. subst.
    rewrite <- is_retryable_spec. by rewrite Hp.
Qed.

(** A turn on a table whose only job is pending executes it. *)
Lemma iteration_pending r c :
  state r = pending →
  iteration w (Rejected message) cfg (c_query c) (c_requeue c) (c_lock c)
            (c_now c) (c_update c) {[i := r]}
  = if attempts r + 1 >=? max_retries r then
      (Some (Failure (error_text message) (attempts r + 1) None),
       {[i := mkRow (command r) dead (attempts r + 1) (max_retries r)
                    (created_at r) (c_update c) (next_retry_at r) None
                    (Some (error_text message))]})
    else
      match Date_toISOString (retry_instant cfg (c_now c) (attempts r + 1))
      with
      | Some t =>
          (Some (Failure (error_text message) (attempts r + 1) (Some t)),
           {[i := mkRow (command r) failed (attempts r + 1) (max_retries r)
                        (created_at r) (c_update c) (Some t) None
                        (Some (error_text message))]})
      | None =>
          (Some ThrowsRangeError,
           {[i := mkRow (command r) processing (attempts r) (max_retries r)
                        (created_at r) (c_lock c) (next_retry_at r) (Some w)
                        (error_message r)]})
      end.
Proof.
  intros Hp. unfold iteration, getNextJob.
  rewrite getNextPendingJob_singleton.
  destruct (decide (state r = pending)); [|done].
  rewrite (executeJob_rejected_row _ (mkJob i r) w message cfg _ _ _ r);
    [|by rewrite lookup_singleton_eq|done]. simpl.
  destruct (_ >=? _); [by rewrite insert_singleton_eq|].
  destruct (Date_toISOString _); by rewrite insert_singleton_eq.
Qed.

(** A turn on a table whose only job is failed: nothing happens before the
    retry is due; then the job is re-queued and executed. *)
Lemma iteration_failed r c :
  state r = failed →
  iteration w (Rejected message) cfg (c_query c) (c_requeue c) (c_lock c)
            (c_now c) (c_update c) {[i := r]}
  = if is_retryable (c_query c) (mkJob i r) then
      iteration w (Rejected message) cfg (c_query c) (c_requeue c)
                (c_lock c) (c_now c) (c_update c)
                {[i := requeued (c_requeue c) r]}
    else (None, {[i := r]}).
Proof.
  intros Hf.
  destruct (is_retryable (c_query c) (mkJob i r)) eqn:Hr.
  - unfold iteration at 1, getNextJob. rewrite getNextPendingJob_singleton.
    destruct (decide (state r = pending)); [congruence|].
    rewrite getRetryableJobs_singleton, Hr. simpl.
    unfold updateJob, getJob. simpl.
    rewrite alter_singleton_eq, lookup_singleton_eq.
    unfold iteration, getNextJob. rewrite getNextPendingJob_singleton.
    by destruct (decide _).
  - unfold iteration, getNextJob. rewrite getNextPendingJob_singleton.
    destruct (decide (state r = pending)); [congruence|].
    by rewrite getRetryableJobs_singleton, Hr.
Qed.

(** A turn on a table whose only job is dead does nothing. *)
Lemma iteration_dead r c :
  state r = dead →
  iteration w (Rejected message) cfg (c_query c) (c_requeue c) (c_lock c)
            (c_now c) (c_update c) {[i := r]}
  = (None, {[i := r]}).
Proof.
  intros Hd. unfold iteration, getNextJob.
  rewrite getNextPendingJob_singleton.
  destruct (decide (state r = pending)); [congruence|].
  rewrite getRetryableJobs_singleton. unfold is_retryable. simpl.
  rewrite Hd. by rewrite bool_decide_eq_false_2.
Qed.

End single_job.

Section failing_runs.
Variables (i w : string) (message : option string) (cfg : ConfigTable).
Implicit Types (r : Row) (c : Clock) (cs : list Clock).

Lemma failing_run_dead cs r :
  state r = dead →
  Forall is_failure (failing_run w message cfg cs {[i := r]}).1 → cs = [].
Proof.
  intros Hd. destruct cs as [|c cs]; [done|]. simpl.
  rewrite iteration_dead by done.
  destruct (failing_run _ _ _ cs _). simpl. by inversion 1.
Qed.

(** A run of turns that all execute the only job of the table and fail:
    the [n]-th of them (from 0) raises the attempts count to
    [attempts r + n + 1] and returns the expected record; a turn after the
    first one happens only while the count is below [max_retries].  The
    job ends dead or failed according to the last count. *)
Lemma failing_run_results cs r :
  state r = pending ∨ state r = failed →
  Forall is_failure (failing_run w message cfg cs {[i := r]}).1 →
  (∀ n c, cs !! n = Some c →
     (failing_run w message cfg cs {[i := r]}).1 !! n
       = Some (expected_failure message cfg (max_retries r)
                                (attempts r + Z.of_nat n + 1) c) ∧
     (n ≠ 0%nat → attempts r + Z.of_nat n < max_retries r)) ∧
  ∃ r', (failing_run w message cfg cs {[i := r]}).2 = {[i := r']} ∧
    max_retries r' = max_retries r ∧
    (cs ≠ [] →
       attempts r' = attempts r + Z.of_nat (length cs) ∧
       (state r' = dead ∧
          attempts r + Z.of_nat (length cs) >= max_retries r ∨
        state r' = failed ∧
          attempts r + Z.of_nat (length cs) < max_retries r)).
Proof.
  revert r. induction cs as [|c cs IH]; intros r Hst Hall.
  { split; [by intros n c Hn|]. exists r. by simpl. }
  assert (∃ r0, state r0 = pending ∧ attempts r0 = attempts r ∧
            max_retries r0 = max_retries r ∧
            iteration w (Rejected message) cfg (c_query c) (c_requeue c)
              (c_lock c) (c_now c) (c_update c) {[i := r]}
            = iteration w (Rejected message) cfg (c_query c) (c_requeue c)
                (c_lock c) (c_now c) (c_update c) {[i := r0]})
    as (r0 & Hp & Ha & Hm & Heq).
  { destruct Hst as [Hp|Hf]; [by exists r|].
    exists (requeued (c_requeue c) r). rewrite iteration_failed by done.
    destruct (is_retryable _ _) eqn:E; [done|].
    simpl in Hall. rewrite iteration_failed, E in Hall by done.
    destruct (failing_run _ _ _ cs _). simpl in Hall. by inversion Hall. }
  simpl in *. rewrite Heq in *. rewrite iteration_pending in * by done.
  rewrite Ha, Hm in *. clear Heq.
  destruct (attempts r + 1 >=? max_retries r) eqn:Hge.
  - (* the budget is used up: dead *)
    destruct (failing_run w message cfg cs _) as [ress db2] eqn:Er.
    simpl in *. inversion Hall as [|? ? _ Hrest]; subst.
    assert (cs = []) as ->.
    { eapply (failing_run_dead cs); [|by rewrite Er]. done. }
    simpl in Er. injection Er as <- <-. apply Z.geb_le in Hge. split.
    + intros [|n] c' Hn; [|done]. injection Hn as <-. simpl.
      unfold expected_failure. rewrite Z.add_0_r.
      rewrite (proj2 (Z.geb_le _ _)) by lia. done.
    + eexists. split; [done|]. simpl. split; [done|].
      intros _. split; [lia|]. left. split; [done | lia].
  - (* retries are left *)
    rewrite Z.geb_leb, Z.leb_gt in Hge.
    destruct (Date_toISOString _) as [t|] eqn:Et.
    2:{ destruct (failing_run _ _ _ cs _). simpl in Hall. by inversion Hall. }
    set (r1 := mkRow (command r0) failed (attempts r + 1) (max_retries r)
                     (created_at r0) (c_update c) (Some t) None
                     (Some (error_text message))) in *.
    destruct (failing_run w message cfg cs {[i := r1]}) as [ress db2] eqn:Er.
    simpl in *. inversion Hall as [|? ? _ Hrest]; subst.
    destruct (IH r1) as (Hres & r' & Hdb & Hm' & Hend);
      [by right | by rewrite Er |]. rewrite Er in Hres, Hdb. simpl in *.
    split.
    + intros [|n] c' Hn.
      * injection Hn as <-. simpl. unfold expected_failure.
        rewrite Z.add_0_r, Et.
        assert ((attempts r + 1 >=? max_retries r) = false) as ->; [|done].
        rewrite Z.geb_leb, Z.leb_gt. lia.
      * simpl in Hn. destruct (Hres n c' Hn) as [H1 H2]. simpl. split.
        -- rewrite H1. do 2 f_equal. lia.
        -- intros _. destruct n as [|n]; [lia|].
           assert (S n ≠ 0%nat) as Hne by done. specialize (H2 Hne). lia.
    + exists r'. split; [done|]. split; [done|]. intros _.
      destruct cs as [|c' cs'].
      * simpl in Er. injection Er as <- <-.
        apply (inj (singletonM i)) in Hdb. subst r'. simpl.
        split; [lia|]. right. split; [done | lia].
      * destruct Hend as (He1 & He2); [done|].
        split; [rewrite He1; simpl length; lia|].
        simpl length in *. destruct He2 as [[? ?]|[? ?]];
          [left | right]; split; auto; lia.
Qed.

End failing_runs.

(** ** C2: the dead-letter threshold *)

(** C2. A failed execution of a claimed job leaves it dead exactly when the
    attempts count after the increment is at least [max_retries]; the row
    then carries that count, no owner and the error text.  A dead job cannot
    be claimed, so no later attempt exists: in a run of consecutive failed
    executions of a fresh job, the job is dead after the [n]-th exactly when
    [n >= max_retries], and a further failed execution happens only while
    the count is still below [max_retries]. *)
Theorem executeJob_dead_iff_exhausted :
  (∀ (db : gmap string Row) job w message cfg tl tn tu r,
     db !! id job = Some r → state r = pending →
     (state <$> (executeJob job w (Rejected message) cfg tl tn tu db).2
                  !! id job = Some dead
      ↔ attempts job + 1 >= max_retries job) ∧
     (attempts job + 1 >= max_retries job →
      ∃ r', (executeJob job w (Rejected message) cfg tl tn tu db).2 !! id job
              = Some r' ∧
        state r' = dead ∧ attempts r' = attempts job + 1 ∧
        worker_id r' = None ∧
        error_message r' = Some (error_text message))) ∧
  (∀ (db : gmap string Row) job w outcome cfg tl tn tu,
     state <$> db !! id job = Some dead →
     executeJob job w outcome cfg tl tn tu db = (LostRace, db) ∧
     ∀ tq tr j, (getNextJob tq tr db).1 = Some j → id j ≠ id job) ∧
  (∀ i w message cfg cs r,
     state r = pending → attempts r = 0 → cs ≠ [] →
     Forall is_failure (failing_run w message cfg cs {[i := r]}).1 →
     (∀ n, (0 < n < length cs)%nat → Z.of_nat n < max_retries r) ∧
     ∃ r', (failing_run w message cfg cs {[i := r]}).2 = {[i := r']} ∧
       attempts r' = Z.of_nat (length cs) ∧
       (state r' = dead ↔ Z.of_nat (length cs) >= max_retries r)).
Proof.
  split; [|split].
  - intros db job w message cfg tl tn tu r Hr Hp.
    rewrite (executeJob_rejected_row db job w message cfg tl tn tu r Hr Hp).
    destruct (attempts job + 1 >=? max_retries job) eqn:Hge.
    + apply Z.geb_le in Hge. simpl. rewrite lookup_insert_eq. simpl.
      split; [split; [lia | done]|]. intros _. eexists. split; [done|].
      by simpl.
    + rewrite Z.geb_leb, Z.leb_gt in Hge.
      split; [|lia].
      destruct (Date_toISOString _); simpl; rewrite lookup_insert_eq; simpl;
        (split; [intros [=] | lia]).
  - intros db job w outcome cfg tl tn tu Hd. split.
    + apply executeJob_lost_race. rewrite Hd. discriminate.
    + intros tq tr j Hj Hid. unfold getNextJob in Hj.
      destruct (getNextPendingJob db) as [p|] eqn:Ep.
      * simpl in Hj. injection Hj as ->.
        apply getNextPendingJob_Some in Ep as (Hin & Hp & _).
        unfold in_table in Hin. rewrite <- Hid, Hin in Hd. simpl in Hd.
        congruence.
      * destruct (getRetryableJobs tq db) as [f|] eqn:Ef; [|done].
        simpl in Hj. apply getJob_Some in Hj as [Hjf _].
        apply getRetryableJobs_Some in Ef as (Hin & (Hst & _) & _).
        unfold in_table in Hin. rewrite <- Hid, Hjf, Hin in Hd. simpl in Hd.
        congruence.
  - intros i w message cfg cs r Hp Ha Hne Hall.
    destruct (failing_run_results i w message cfg cs r (or_introl Hp) Hall)
      as (Hres & r' & Hdb & Hm & Hend).
    destruct (Hend Hne) as (He1 & He2). rewrite Ha in *. split.
    + intros n [Hn0 Hn].
      destruct (lookup_lt_is_Some_2 cs n Hn) as [c Hc].
      destruct (Hres n c Hc) as [_ H].
      assert (n ≠ 0%nat) as Hnz by lia. specialize (H Hnz). lia.
    + exists r'. split; [done|]. split; [lia|].
      destruct He2 as [[Hd ?]|[Hf ?]]; split; intros; try done; try lia.
      congruence.
Qed.

(** A job with [max_retries = 2]: the first failure leaves it failed, the
    second one dead, and dead it cannot be executed. *)
Lemma executeJob_dead_iff_exhausted_witness :
  (state <$> (executeJob
                (mkJob "j1" (mkRow "exit 1" pending 1 2 10 10 None None None))
                "w1" (Rejected (Some "boom")) Config.initial 20 21 22
                {["j1" := mkRow "exit 1" pending 1 2 10 10 None None None]}).2
             !! "j1" = Some dead
   ↔ 1 + 1 >= 2) ∧
  (∃ r', (executeJob
            (mkJob "j1" (mkRow "exit 1" pending 1 2 10 10 None None None))
            "w1" (Rejected (Some "boom")) Config.initial 20 21 22
            {["j1" := mkRow "exit 1" pending 1 2 10 10 None None None]}).2
           !! "j1" = Some r' ∧
     state r' = dead ∧ attempts r' = 1 + 1) ∧
  executeJob (mkJob "j1" (mkRow "exit 1" pending 1 2 10 10 None None None))
    "w2" (Rejected (Some "boom")) Config.initial 30 31 32
    {["j1" := mkRow "exit 1" dead 2 2 10 22 None None (Some "boom")]}
  = (LostRace,
     {["j1" := mkRow "exit 1" dead 2 2 10 22 None None (Some "boom")]}) ∧
  (∃ r', (failing_run "w1" (Some "boom") Config.initial
            [mkClock 20 20 20 20 20; mkClock 5000 5000 5000 5000 5000]
            {["j1" := mkRow "exit 1" pending 0 2 10 10 None None None]}).2
         = {["j1" := r']} ∧ attempts r' = 2 ∧ (state r' = dead ↔ 2 >= 2)).
Proof.
  destruct executeJob_dead_iff_exhausted as (H1 & H2 & H3).
  destruct (H1 {["j1" := mkRow "exit 1" pending 1 2 10 10 None None None]}
              (mkJob "j1" (mkRow "exit 1" pending 1 2 10 10 None None None))
              "w1" (Some "boom") Config.initial 20 21 22
              (mkRow "exit 1" pending 1 2 10 10 None None None))
    as [Hiff Hrow]; [reflexivity | reflexivity |].
  split; [exact Hiff|]. split; [|split].
  - destruct Hrow as (r' & Hr' & Hs & Ha & _); [simpl; lia|].
    exists r'. auto.
  - apply (H2 {["j1" := mkRow "exit 1" dead 2 2 10 22 None None (Some "boom")]}
              (mkJob "j1" (mkRow "exit 1" pending 1 2 10 10 None None None))).
    reflexivity.
  - destruct (H3 "j1" "w1" (Some "boom") Config.initial
                [mkClock 20 20 20 20 20; mkClock 5000 5000 5000 5000 5000]
                (mkRow "exit 1" pending 0 2 10 10 None None None))
      as (_ & Hr); [reflexivity | reflexivity | discriminate | | exact Hr].
    vm_compute. repeat constructor.
Defined.

(** ** C4: the backoff formula *)

(** *** Doubles *)

Section doubles.
Local Open Scope Q_scope.







End doubles.

Section accuracy.
Local Open Scope Q_scope.








End accuracy.

Section dates.
Local Open Scope Q_scope.




End dates.




(** ** C3: the scenario of three retries *)

(** C3, as the code has it.  A job enqueued with [max_retries = 3] whose
    command always fails, base 2: the first two failures leave it failed
    with attempts 1 and 2 and retries 2 and 4 seconds later; the third
    failure (attempts 3) moves it to the dead-letter queue with no retry
    scheduled, and a fourth turn finds nothing to execute. *)
Theorem third_failure_reaches_dead_letter_queue :
  failing_run "w1" (Some "Command failed: exit 1") Config.initial
    [mkClock 1000 1000 1000 1005 1005;
     mkClock 3100 3100 3100 3105 3105;
     mkClock 7200 7200 7200 7205 7205;
     mkClock 15300 15300 15300 15305 15305]
    (enqueue (mkJobData (Some "j1") (Some "exit 1") (Some 3)) Config.initial
             0 0 0 ∅).2
  = ([Some (Failure "Command failed: exit 1" 1 (Some 3005));
      Some (Failure "Command failed: exit 1" 2 (Some 7105));
      Some (Failure "Command failed: exit 1" 3 None);
      None],
     {["j1" := mkRow "exit 1" dead 3 3 0 7205 None None
                     (Some "Command failed: exit 1")]}).
Proof. vm_compute. reflexivity. Qed.

(** * Further properties of the code *)

(** ** [enqueue]: validation, duplicates, what is stored *)

(** X1. [enqueue] checks the id first, then the command, then that the id is
    new; each refusal throws its own error and writes nothing. *)
Theorem enqueue_refusals (db : gmap string Row) (jobData : JobData)
    (cfg : ConfigTable) (tc tu ti : Z) :
  (d_id jobData = None ∨ d_id jobData = Some "" →
     enqueue jobData cfg tc tu ti db = (Throws MustHaveId, db)) ∧
  (∀ i, d_id jobData = Some i → i ≠ "" →
     d_command jobData = None ∨ d_command jobData = Some "" →
     enqueue jobData cfg tc tu ti db = (Throws MustHaveCommand, db)) ∧
  (∀ i c r, d_id jobData = Some i → i ≠ "" →
     d_command jobData = Some c → c ≠ "" → db !! i = Some r →
     enqueue jobData cfg tc tu ti db = (Throws (AlreadyExists i), db)) ∧
  ((∀ j, (enqueue jobData cfg tc tu ti db).1 ≠ Enqueued j) →
     (enqueue jobData cfg tc tu ti db).2 = db).
Proof.
  split; [|split; [|split]].
  - intros [H|H]; unfold enqueue; by rewrite H.
  - intros i Hi Hne Hc. unfold enqueue. rewrite Hi. simpl.
    rewrite bool_decide_eq_false_2 by done.
    destruct Hc as [->| ->]; done.
  - intros i c r Hi Hne Hc Hcne Hr. unfold enqueue. rewrite Hi, Hc. simpl.
    rewrite !bool_decide_eq_false_2 by done.
    unfold getJob. by rewrite Hr.
  - intros Hno. unfold enqueue in *.
    destruct (js_not_str (d_id jobData)); [done|].
    destruct (js_not_str (d_command jobData)); [done|].
    destruct (getJob _ db); [done|].
    destruct (createJob _ ti db) as [[j|] db'] eqn:E; [by destruct (Hno j)|].
    unfold createJob in E. destruct (db !! _); [by injection E as <-|].
    simpl in E. unfold getJob in E. rewrite lookup_insert_eq in E. done.
Qed.

(** An empty id, a missing command and a taken id. *)
Lemma enqueue_refusals_witness :
  enqueue (mkJobData (Some "") (Some "ls") None) Config.initial 1 2 3 ∅
    = (Throws MustHaveId, ∅) ∧
  enqueue (mkJobData (Some "a") None None) Config.initial 1 2 3 ∅
    = (Throws MustHaveCommand, ∅) ∧
  enqueue (mkJobData (Some "a") (Some "ls") None) Config.initial 1 2 3
          {["a" := mkRow "pwd" completed 0 3 0 0 None None None]}
    = (Throws (AlreadyExists "a"),
       {["a" := mkRow "pwd" completed 0 3 0 0 None None None]}) ∧
  (enqueue (mkJobData None None None) Config.initial 1 2 3 ∅).2 = ∅.
Proof.
  split; [|split; [|split]].
  - apply (enqueue_refusals ∅ (mkJobData (Some "") (Some "ls") None)).
    right. reflexivity.
  - apply (enqueue_refusals ∅ (mkJobData (Some "a") None None) Config.initial
             1 2 3) with (i := "a");
      [reflexivity | discriminate | left; reflexivity].
  - apply (enqueue_refusals
             {["a" := mkRow "pwd" completed 0 3 0 0 None None None]}
             (mkJobData (Some "a") (Some "ls") None) Config.initial 1 2 3)
      with (c := "ls") (r := mkRow "pwd" completed 0 3 0 0 None None None);
      [reflexivity | discriminate | reflexivity | discriminate | reflexivity].
  - apply (enqueue_refusals ∅ (mkJobData None None None) Config.initial 1 2 3).
    intros j. discriminate.
Defined.

(** X2. With a non-empty id that is new and a non-empty command, [enqueue]
    stores and returns a pending job with no attempts, no retry instant, no
    owner and no error, stamped with the two clock readings of the caller;
    the job can be read back, and no other row changes. *)
Theorem enqueue_stores_pending_job (db : gmap string Row) (jobData : JobData)
    (cfg : ConfigTable) (tc tu ti : Z) (i c : string) :
  d_id jobData = Some i → i ≠ "" →
  d_command jobData = Some c → c ≠ "" → db !! i = None →
  ∃ r, enqueue jobData cfg tc tu ti db = (Enqueued (mkJob i r), <[i := r]> db) ∧
    getJob i (enqueue jobData cfg tc tu ti db).2 = Some (mkJob i r) ∧
    command r = c ∧ state r = pending ∧ attempts r = 0 ∧
    created_at r = tc ∧ updated_at r = tu ∧
    next_retry_at r = None ∧ worker_id r = None ∧ error_message r = None ∧
    (∀ k, k ≠ i → (enqueue jobData cfg tc tu ti db).2 !! k = db !! k).
Proof.
  intros Hi Hne Hc Hcne Hr.
  set (r0 := mkRow c pending 0
               (js_or_num (Some (js_or_num (d_max_retries jobData)
                                           (Config.getMaxRetries cfg))) 3)
               tc tu None None None).
  assert (enqueue jobData cfg tc tu ti db
          = (Enqueued (mkJob i r0), <[i := r0]> db)) as ->.
  { unfold enqueue. rewrite Hi, Hc. simpl.
    rewrite !bool_decide_eq_false_2 by done.
    unfold getJob at 1. rewrite Hr. unfold createJob. simpl. rewrite Hr.
    unfold getJob. by rewrite lookup_insert_eq. }
  exists r0. split; [done|]. simpl. unfold getJob. rewrite lookup_insert_eq.
  repeat (split; [done|]).
  intros k Hk. by rewrite lookup_insert_ne.
Qed.

(** A first job in an empty store. *)
Lemma enqueue_stores_pending_job_witness :
  ∃ r, enqueue (mkJobData (Some "a") (Some "ls") None) Config.initial 1 2 3 ∅
       = (Enqueued (mkJob "a" r), <["a" := r]> ∅) ∧
       getJob "a" (enqueue (mkJobData (Some "a") (Some "ls") None)
                           Config.initial 1 2 3 ∅).2 = Some (mkJob "a" r) ∧
       command r = "ls" ∧ state r = pending ∧ attempts r = 0.
Proof.
  destruct (enqueue_stores_pending_job ∅
              (mkJobData (Some "a") (Some "ls") None) Config.initial 1 2 3
              "a" "ls")
    as (r & H1 & H2 & H3 & H4 & H5 & _);
    [reflexivity | discriminate | reflexivity | discriminate | reflexivity |].
  exists r. auto.
Defined.



(** ** [executeJob]: races and repeated calls *)

(** X4. [executeJob] returns [null] exactly when the job is missing or not
    pending at the moment of the claim, and then it writes nothing. *)
Theorem executeJob_lost_race_iff (db : gmap string Row) (job : Job)
    (w : string) (outcome : ExecOutcome) (cfg : ConfigTable) (tl tn tu : Z) :
  ((executeJob job w outcome cfg tl tn tu db).1 = LostRace
   ↔ state <$> db !! id job ≠ Some pending) ∧
  ((executeJob job w outcome cfg tl tn tu db).1 = LostRace →
   (executeJob job w outcome cfg tl tn tu db).2 = db).
Proof.
  assert (state <$> db !! id job ≠ Some pending
          ∨ ∃ r, db !! id job = Some r ∧ state r = pending) as [Hn|(r & Hr & Hp)].
  { destruct (db !! id job) as [r|]; simpl; [|by left].
    destruct (decide (state r = pending)); [right; eauto | left; congruence]. }
  - rewrite executeJob_lost_race by done. done.
  - assert ((executeJob job w outcome cfg tl tn tu db).1 ≠ LostRace) as Hne.
    { destruct outcome as [so se|message].
      - by rewrite (executeJob_resolved_row db job w so se cfg tl tn tu r).
      - rewrite (executeJob_rejected_row db job w message cfg tl tn tu r)
          by done.
        destruct (_ >=? _); [done|]. by destruct (Date_toISOString _). }
    split; [|done]. split; [done|]. rewrite Hr. simpl. rewrite Hp.
    by intros [].
Qed.

(** A completed job is not executed; a pending one is. *)
Lemma executeJob_lost_race_iff_witness :
  executeJob (mkJob "a" (mkRow "ls" pending 0 3 1 1 None None None)) "w1"
    (Resolved "" "") Config.initial 5 6 7
    {["a" := mkRow "ls" completed 0 3 1 4 None None None]}
  = (LostRace, {["a" := mkRow "ls" completed 0 3 1 4 None None None]}) ∧
  (executeJob (mkJob "a" (mkRow "ls" pending 0 3 1 1 None None None)) "w1"
     (Resolved "" "") Config.initial 5 6 7
     {["a" := mkRow "ls" pending 0 3 1 1 None None None]}).1 ≠ LostRace.
Proof.
  split.
  - destruct (executeJob_lost_race_iff
                {["a" := mkRow "ls" completed 0 3 1 4 None None None]}
                (mkJob "a" (mkRow "ls" pending 0 3 1 1 None None None)) "w1"
                (Resolved "" "") Config.initial 5 6 7) as [[_ H1] H2].
    assert ((executeJob
               (mkJob "a" (mkRow "ls" pending 0 3 1 1 None None None)) "w1"
               (Resolved "" "") Config.initial 5 6 7
               {["a" := mkRow "ls" completed 0 3 1 4 None None None]}).1
            = LostRace) as Hl by (apply H1; vm_compute; discriminate).
    specialize (H2 Hl). destruct (executeJob _ _ _ _ _ _ _ _) as [res db'].
    simpl in *. by rewrite Hl, H2.
  - destruct (executeJob_lost_race_iff
                {["a" := mkRow "ls" pending 0 3 1 1 None None None]}
                (mkJob "a" (mkRow "ls" pending 0 3 1 1 None None None)) "w1"
                (Resolved "" "") Config.initial 5 6 7) as [[H1 _] _].
    intros Hl. apply (H1 Hl). reflexivity.
Defined.

(** X5. A job is executed at most once per claim: whatever the first
    [executeJob] did, a second call on the same job id, by any worker and
    with any copy of the job, returns [null] and writes nothing. *)
Theorem executeJob_twice_loses (db : gmap string Row) (job : Job) (r' : Row)
    (w1 w2 : string) (o1 o2 : ExecOutcome) (cfg1 cfg2 : ConfigTable)
    (tl1 tn1 tu1 tl2 tn2 tu2 : Z) :
  executeJob (mkJob (id job) r') w2 o2 cfg2 tl2 tn2 tu2
             (executeJob job w1 o1 cfg1 tl1 tn1 tu1 db).2
  = (LostRace, (executeJob job w1 o1 cfg1 tl1 tn1 tu1 db).2).
Proof.
  apply executeJob_lost_race. simpl.
  assert (state <$> db !! id job ≠ Some pending
          ∨ ∃ r, db !! id job = Some r ∧ state r = pending) as [Hn|(r & Hr & Hp)].
  { destruct (db !! id job) as [r|]; simpl; [|by left].
    destruct (decide (state r = pending)); [right; eauto | left; congruence]. }
  - by rewrite executeJob_lost_race.
  - destruct o1 as [so se|message].
    + rewrite (executeJob_resolved_row db job w1 so se cfg1 tl1 tn1 tu1 r)
        by done.
      simpl. by rewrite lookup_insert_eq.
    + rewrite (executeJob_rejected_row db job w1 message cfg1 tl1 tn1 tu1 r)
        by done.
      destruct (_ >=? _); [simpl; by rewrite lookup_insert_eq|].
      destruct (Date_toISOString _); simpl; by rewrite lookup_insert_eq.
Qed.

(** ** [updateJob], [moveToDLQ], [retryFromDLQ] *)

Lemma updateJob_missing (db : gmap string Row) (i : string) (u : Updates)
    (now : Z) :
  db !! i = None → updateJob i u now db = (None, db).
Proof.
  intros H. pose proof (updateJob_absent db i u now H) as Ha.
  unfold updateJob in *. simpl in Ha. rewrite Ha. unfold getJob.
  by rewrite H.
Qed.

Lemma updateJob_stored (db : gmap string Row) (i : string) (u : Updates)
    (now : Z) (r : Row) :
  db !! i = Some r →
  updateJob i u now db
  = (Some (mkJob i (apply_updates u now r)), <[i := apply_updates u now r]> db).
Proof.
  intros Hr. unfold updateJob, getJob. rewrite lookup_alter_eq, Hr. simpl.
  f_equal. apply map_eq; intros k. destruct (decide (i = k)) as [->|].
  - by rewrite lookup_alter_eq, lookup_insert_eq, Hr.
  - by rewrite lookup_alter_ne, lookup_insert_ne.
Qed.

(** X7. [moveToDLQ] does not look at the state: any stored job, pending,
    processing or completed alike, becomes dead with no owner, keeping its
    attempts, error message and retry instant; a missing id gives [null]. *)
Theorem moveToDLQ_any_state (db : gmap string Row) (i : string) (now : Z) :
  (db !! i = None → moveToDLQ i now db = (None, db)) ∧
  (∀ r, db !! i = Some r →
     ∃ r', moveToDLQ i now db = (Some (mkJob i r'), <[i := r']> db) ∧
       state r' = dead ∧ worker_id r' = None ∧
       attempts r' = attempts r ∧ error_message r' = error_message r ∧
       next_retry_at r' = next_retry_at r).
Proof.
  unfold moveToDLQ. split.
  - apply updateJob_missing.
  - intros r Hr. rewrite (updateJob_stored db i _ now r Hr).
    eexists. split; [reflexivity|]. by simpl.
Qed.

(** A completed job is moved to the dead-letter queue all the same. *)
Lemma moveToDLQ_any_state_witness :
  moveToDLQ "zz" 9 {["a" := mkRow "ls" completed 0 3 1 4 None None None]}
    = (None, {["a" := mkRow "ls" completed 0 3 1 4 None None None]}) ∧
  (∃ r', (moveToDLQ "a" 9
            {["a" := mkRow "ls" completed 0 3 1 4 None None None]}).1
         = Some (mkJob "a" r') ∧ state r' = dead).
Proof.
  split.
  - apply (moveToDLQ_any_state
             {["a" := mkRow "ls" completed 0 3 1 4 None None None]} "zz" 9).
    reflexivity.
  - destruct (moveToDLQ_any_state
                {["a" := mkRow "ls" completed 0 3 1 4 None None None]} "a" 9)
      as [_ H].
    destruct (H (mkRow "ls" completed 0 3 1 4 None None None))
      as (r' & Hr' & Hs & _); [reflexivity|].
    exists r'. rewrite Hr'. auto.
Defined.

(** X8. A job can be revived once: after [retryFromDLQ], whether it revived
    the job or refused, a second [retryFromDLQ] of the same id returns
    [null] and writes nothing. *)
Theorem retryFromDLQ_twice_refused (db : gmap string Row) (i : string)
    (t1 t2 : Z) :
  Storage.retryFromDLQ i t2 (Storage.retryFromDLQ i t1 db).2
  = (None, (Storage.retryFromDLQ i t1 db).2).
Proof.
  assert (state <$> (Storage.retryFromDLQ i t1 db).2 !! i ≠ Some dead) as H.
  { unfold Storage.retryFromDLQ at 1. unfold getJob.
    destruct (db !! i) as [r|] eqn:Hr; simpl; [|by rewrite Hr].
    destruct (decide (state r = dead)) as [Hd|Hd].
    - rewrite updateJob_lookup, Hr. simpl. discriminate.
    - simpl. rewrite Hr. simpl. congruence. }
  revert H. generalize (Storage.retryFromDLQ i t1 db).2. intros db1 H.
  unfold Storage.retryFromDLQ, getJob.
  destruct (db1 !! i) as [r|]; [|done]. simpl in *.
  destruct (decide (state r = dead)) as [Hd|]; [|done].
  by rewrite Hd in H.
Qed.

(** ** The listings: [listJobs], [getDLQJobs], [getStats] *)

Section listings.
Implicit Types (db : gmap string Row) (j : Job) (l : list Job).

#[global] Instance rowToJob_inj : Inj (=) (=) rowToJob.
Proof. intros [k1 r1] [k2 r2]. unfold rowToJob. simpl. by intros [= -> ->]. Qed.

Lemma NoDup_all_jobs db : NoDup (all_jobs db).
Proof. unfold all_jobs. apply NoDup_fmap_2; [apply _|]. apply NoDup_map_to_list. Qed.

Lemma length_all_jobs db : length (all_jobs db) = size db.
Proof. unfold all_jobs. by rewrite length_fmap, length_map_to_list. Qed.

#[global] Instance created_at_desc_trans : Transitive created_at_desc.
Proof. intros a b c. unfold created_at_desc. lia. Qed.
#[global] Instance created_at_desc_total : Total created_at_desc.
Proof. intros a b. unfold created_at_desc. lia. Qed.
#[global] Instance updated_at_desc_trans : Transitive updated_at_desc.
Proof. intros a b c. unfold updated_at_desc. lia. Qed.
#[global] Instance updated_at_desc_total : Total updated_at_desc.
Proof. intros a b. unfold updated_at_desc. lia. Qed.

Lemma StronglySorted_positions (R : relation Job) l (n m : nat) a b :
  StronglySorted R l → (n < m)%nat →
  l !! n = Some a → l !! m = Some b → R a b.
Proof.
  intros Hs. revert n m. induction Hs as [|x l Hs IH Hall]; intros n m Hnm.
  - by rewrite lookup_nil.
  - destruct m as [|m]; [lia|]. destruct n as [|n]; simpl.
    + intros [= <-] Hb. rewrite Forall_forall in Hall. apply Hall.
      by eapply list_elem_of_lookup_2.
    + apply IH. lia.
Qed.

Lemma state_name_inj st1 st2 : state_name st1 = state_name st2 → st1 = st2.
Proof. by destruct st1, st2. Qed.

Lemma count_state_listJobs st db :
  length (listJobs (Some (state_name st)) db) = count_state st db.
Proof.
  unfold listJobs, count_state. rewrite merge_sort_Permutation.
  assert (js_not_str (Some (state_name st)) = false) as -> by by destruct st.
  simpl. f_equal. apply list_filter_iff. intros j. split.
  - apply state_name_inj.
  - by intros ->.
Qed.

(** The object [getStats] builds holds the five counts. *)
Lemma getStats_counts db :
  getStats db = mkStats (count_state pending db) (count_state processing db)
                        (count_state completed db) (count_state failed db)
                        (count_state dead db).
Proof.
  unfold getStats, count_by_state, count_state. simpl.
  generalize (length (filter (λ j : Job, state j = pending) (all_jobs db))).
  generalize (length (filter (λ j : Job, state j = processing) (all_jobs db))).
  generalize (length (filter (λ j : Job, state j = completed) (all_jobs db))).
  generalize (length (filter (λ j : Job, state j = failed) (all_jobs db))).
  generalize (length (filter (λ j : Job, state j = dead) (all_jobs db))).
  intros n5 n4 n3 n2 n1.
  destruct (decide (n1 = 0%nat)), (decide (n2 = 0%nat)),
    (decide (n3 = 0%nat)), (decide (n4 = 0%nat)), (decide (n5 = 0%nat));
    subst; reflexivity.
Qed.

(** Every job is in exactly one state. *)
Lemma length_by_state l :
  length l
  = (length (filter (λ j : Job, state j = pending) l)
     + length (filter (λ j : Job, state j = processing) l)
     + length (filter (λ j : Job, state j = completed) l)
     + length (filter (λ j : Job, state j = failed) l)
     + length (filter (λ j : Job, state j = dead) l))%nat.
Proof.
  induction l as [|j l IH]; [done|].
  rewrite !filter_cons. simpl. rewrite IH.
  destruct (state j); repeat case_decide; try done; simpl; lia.
Qed.

End listings.

(** X9. [listJobs] without a state, or with the empty string, returns every
    job; with a state name it returns exactly the jobs in that state, and
    nothing for a name that is no state.  No job is listed twice, newer
    jobs come before older ones, and the full listing has as many entries
    as the table has rows. *)
Theorem listJobs_lists (db : gmap string Row) (st : option string) :
  (∀ j, j ∈ listJobs st db
        ↔ in_table db j ∧
          (st = None ∨ st = Some "" ∨ st = Some (state_name (state j)))) ∧
  NoDup (listJobs st db) ∧
  (∀ (n m : nat) (a b : Job), (n < m)%nat →
     listJobs st db !! n = Some a → listJobs st db !! m = Some b →
     created_at b ≤ created_at a) ∧
  (st = None ∨ st = Some "" → length (listJobs st db) = size db) ∧
  (∀ s, st = Some s → s ≠ "" → (∀ x, state_name x ≠ s) →
     listJobs st db = []).
Proof.
  assert (Hmem : ∀ j, j ∈ listJobs st db
        ↔ in_table db j ∧
          (st = None ∨ st = Some "" ∨ st = Some (state_name (state j)))).
  { intros j. unfold listJobs. rewrite merge_sort_Permutation.
    destruct st as [s|]; simpl.
    - case_bool_decide as Hs.
      + subst s. rewrite elem_of_all_jobs. intuition.
      + rewrite list_elem_of_filter, elem_of_all_jobs. split.
        * intros [<- ?]. auto.
        * intros [? [?|[?|?]]]; by simplify_eq.
    - rewrite elem_of_all_jobs. intuition. }
  split; [exact Hmem|]. split; [|split; [|split]].
  - unfold listJobs. rewrite merge_sort_Permutation.
    destruct (js_not_str st); [|apply NoDup_filter]; apply NoDup_all_jobs.
  - intros n m a b Hnm Ha Hb.
    apply (StronglySorted_positions created_at_desc (listJobs st db) n m a b);
      [|done..].
    apply StronglySorted_merge_sort; apply _.
  - intros Hst. unfold listJobs. rewrite merge_sort_Permutation.
    assert (js_not_str st = true) as -> by (by destruct Hst as [-> | ->]).
    apply length_all_jobs.
  - intros s -> Hs Hno. apply elem_of_nil_inv. intros j Hj.
    apply Hmem in Hj as [_ [?|[?|Hj]]]; [congruence | congruence |].
    injection Hj as Hj. by destruct (Hno (state j)).
Qed.

(** Two jobs, one of them dead. *)
Lemma listJobs_lists_witness :
  length (listJobs None
            {["a" := mkRow "ls" pending 0 3 5 5 None None None;
              "b" := mkRow "pwd" dead 3 3 1 9 None None (Some "e")]}) = 2%nat ∧
  listJobs (Some "zombie")
           {["a" := mkRow "ls" pending 0 3 5 5 None None None;
             "b" := mkRow "pwd" dead 3 3 1 9 None None (Some "e")]} = [] ∧
  mkJob "b" (mkRow "pwd" dead 3 3 1 9 None None (Some "e"))
    ∈ listJobs (Some "dead")
        {["a" := mkRow "ls" pending 0 3 5 5 None None None;
          "b" := mkRow "pwd" dead 3 3 1 9 None None (Some "e")]}.
Proof.
  split; [|split].
  - destruct (listJobs_lists
      {["a" := mkRow "ls" pending 0 3 5 5 None None None;
        "b" := mkRow "pwd" dead 3 3 1 9 None None (Some "e")]} None)
      as (_ & _ & _ & H & _).
    rewrite H by (by left). reflexivity.
  - destruct (listJobs_lists
      {["a" := mkRow "ls" pending 0 3 5 5 None None None;
        "b" := mkRow "pwd" dead 3 3 1 9 None None (Some "e")]}
      (Some "zombie")) as (_ & _ & _ & _ & H).
    apply (H "zombie"); [reflexivity | discriminate |].
    intros []; discriminate.
  - destruct (listJobs_lists
      {["a" := mkRow "ls" pending 0 3 5 5 None None None;
        "b" := mkRow "pwd" dead 3 3 1 9 None None (Some "e")]} (Some "dead"))
      as (H & _).
    apply H. split; [reflexivity|]. right. right. reflexivity.
Defined.

(** X10. [getDLQJobs] returns exactly the dead jobs, each once, the most
    recently written first: the same jobs as [listJobs('dead')], in another
    order. *)
Theorem getDLQJobs_lists_dead (db : gmap string Row) :
  (∀ j, j ∈ getDLQJobs db ↔ in_table db j ∧ state j = dead) ∧
  NoDup (getDLQJobs db) ∧
  (∀ (n m : nat) (a b : Job), (n < m)%nat →
     getDLQJobs db !! n = Some a → getDLQJobs db !! m = Some b →
     updated_at b ≤ updated_at a) ∧
  getDLQJobs db ≡ₚ listJobs (Some "dead") db.
Proof.
  split; [|split; [|split]].
  - intros j. unfold getDLQJobs.
    rewrite merge_sort_Permutation, list_elem_of_filter, elem_of_all_jobs.
    intuition.
  - unfold getDLQJobs. rewrite merge_sort_Permutation.
    apply NoDup_filter, NoDup_all_jobs.
  - intros n m a b Hnm Ha Hb.
    apply (StronglySorted_positions updated_at_desc (getDLQJobs db) n m a b);
      [|done..].
    apply StronglySorted_merge_sort; apply _.
  - unfold getDLQJobs, listJobs. rewrite !merge_sort_Permutation. simpl.
    erewrite list_filter_iff; [reflexivity|].
    intros j. split; [by intros -> | apply (state_name_inj _ dead)].
Qed.

(** X11. [getStats] counts the jobs of each state, as many as [listJobs]
    lists for that state (and [getDLQJobs] for dead), and the five counts
    add up to the number of jobs in the table: the total the [status]
    command prints. *)
Theorem getStats_counts_jobs (db : gmap string Row) :
  n_pending (getStats db) = length (listJobs (Some "pending") db) ∧
  n_processing (getStats db) = length (listJobs (Some "processing") db) ∧
  n_completed (getStats db) = length (listJobs (Some "completed") db) ∧
  n_failed (getStats db) = length (listJobs (Some "failed") db) ∧
  n_dead (getStats db) = length (listJobs (Some "dead") db) ∧
  n_dead (getStats db) = length (getDLQJobs db) ∧
  stats_total (getStats db) = size db.
Proof.
  rewrite getStats_counts. simpl.
  rewrite (count_state_listJobs pending), (count_state_listJobs processing),
    (count_state_listJobs completed), (count_state_listJobs failed),
    (count_state_listJobs dead).
  repeat (split; [done|]). split.
  - unfold getDLQJobs, count_state. by rewrite merge_sort_Permutation.
  - unfold stats_total, count_state. simpl.
    by rewrite <- length_by_state, length_all_jobs.
Qed.

(** Two jobs in the dead-letter queue: the one written last comes first. *)
Lemma getDLQJobs_lists_dead_witness :
  mkJob "b" (mkRow "pwd" dead 3 3 1 9 None None (Some "e"))
    ∈ getDLQJobs {["a" := mkRow "ls" dead 1 1 5 20 None None (Some "e");
                   "b" := mkRow "pwd" dead 3 3 1 9 None None (Some "e")]} ∧
  updated_at (mkRow "pwd" dead 3 3 1 9 None None (Some "e"))
    ≤ updated_at (mkRow "ls" dead 1 1 5 20 None None (Some "e")).
Proof.
  destruct (getDLQJobs_lists_dead
    {["a" := mkRow "ls" dead 1 1 5 20 None None (Some "e");
      "b" := mkRow "pwd" dead 3 3 1 9 None None (Some "e")]})
    as (H1 & _ & H3 & _).
  split.
  - apply H1. split; reflexivity.
  - apply (H3 0%nat 1%nat
             (mkJob "a" (mkRow "ls" dead 1 1 5 20 None None (Some "e")))
             (mkJob "b" (mkRow "pwd" dead 3 3 1 9 None None (Some "e"))));
      [lia | reflexivity | reflexivity].
Defined.

(** ** Counting under the operations *)

Section counting.
Implicit Types (db : gmap string Row) (i : string) (r : Row) (st : JobState).

Lemma count_state_insert_fresh st db i r :
  db !! i = None →
  count_state st (<[i := r]> db) = (one_if st r + count_state st db)%nat.
Proof.
  intros H. unfold count_state, all_jobs, one_if.
  rewrite (map_to_list_insert db i r H). rewrite fmap_cons, filter_cons.
  simpl. by destruct (decide (state r = st)).
Qed.

Lemma count_state_replace st db i r0 r :
  db !! i = Some r0 →
  (count_state st (<[i := r]> db) + one_if st r0
   = count_state st db + one_if st r)%nat.
Proof.
  intros H.
  assert (count_state st (<[i := r]> db)
          = (one_if st r + count_state st (delete i db))%nat) as H1.
  { rewrite <- (insert_delete_eq db i r).
    apply count_state_insert_fresh, lookup_delete_eq. }
  assert (count_state st db
          = (one_if st r0 + count_state st (delete i db))%nat) as H2.
  { rewrite <- (insert_delete_id db i r0 H) at 1.
    apply count_state_insert_fresh, lookup_delete_eq. }
  lia.
Qed.

Lemma size_replace db i r0 r :
  db !! i = Some r0 → size (<[i := r]> db) = size db.
Proof. intros H. rewrite map_size_insert_Some; [done | eauto]. Qed.

(** The table [lockJob] leaves when it succeeds. *)
Lemma lockJob_claimed db i w now r :
  db !! i = Some r → state r = pending →
  lockJob i w now db
  = (true, <[i := mkRow (command r) processing (attempts r) (max_retries r)
                        (created_at r) now (next_retry_at r) (Some w)
                        (error_message r)]> db).
Proof.
  intros Hr Hp. unfold lockJob. rewrite Hr.
  by destruct (decide (state r = pending)).
Qed.

(** X12. The counts of [getStats] follow the operations: an accepted
    [enqueue] adds one pending job; a successful claim moves one job from
    pending to processing; a successful execution of a pending job moves
    one job from pending to completed.  The other counts stay as they
    are. *)
Theorem getStats_follows_operations (db : gmap string Row) :
  (∀ jobData cfg tc tu ti j db',
     enqueue jobData cfg tc tu ti db = (Enqueued j, db') →
     getStats db'
     = mkStats (S (n_pending (getStats db))) (n_processing (getStats db))
               (n_completed (getStats db)) (n_failed (getStats db))
               (n_dead (getStats db))) ∧
  (∀ i w now,
     (lockJob i w now db).1 = true →
     mkStats (S (n_pending (getStats (lockJob i w now db).2)))
             (n_processing (getStats (lockJob i w now db).2))
             (n_completed (getStats (lockJob i w now db).2))
             (n_failed (getStats (lockJob i w now db).2))
             (n_dead (getStats (lockJob i w now db).2))
     = mkStats (n_pending (getStats db)) (S (n_processing (getStats db)))
               (n_completed (getStats db)) (n_failed (getStats db))
               (n_dead (getStats db))) ∧
  (∀ job w so se cfg tl tn tu,
     (executeJob job w (Resolved so se) cfg tl tn tu db).1 = Success so se →
     mkStats
       (S (n_pending
             (getStats (executeJob job w (Resolved so se) cfg tl tn tu db).2)))
       (n_processing
          (getStats (executeJob job w (Resolved so se) cfg tl tn tu db).2))
       (n_completed
          (getStats (executeJob job w (Resolved so se) cfg tl tn tu db).2))
       (n_failed
          (getStats (executeJob job w (Resolved so se) cfg tl tn tu db).2))
       (n_dead
          (getStats (executeJob job w (Resolved so se) cfg tl tn tu db).2))
     = mkStats (n_pending (getStats db)) (n_processing (getStats db))
               (S (n_completed (getStats db))) (n_failed (getStats db))
               (n_dead (getStats db))).
Proof.
  split; [|split].
  - intros jobData cfg tc tu ti j db' He.
    apply enqueue_Enqueued in He as (_ & _ & Hfresh & -> & Hf).
    rewrite !getStats_counts. simpl.
    rewrite !count_state_insert_fresh by done. unfold one_if.
    rewrite Hf. simpl. done.
  - intros i w now Hl. apply lockJob_true in Hl.
    destruct (db !! i) as [r|] eqn:Hr; [|done]. injection Hl as Hp.
    rewrite (lockJob_claimed db i w now r Hr Hp). simpl.
    rewrite !getStats_counts. simpl.
    pose proof (λ st, count_state_replace st db i r
      (mkRow (command r) processing (attempts r) (max_retries r)
             (created_at r) now (next_retry_at r) (Some w) (error_message r))
      Hr) as Hc.
    pose proof (Hc pending) as H1. pose proof (Hc processing) as H2.
    pose proof (Hc completed) as H3. pose proof (Hc failed) as H4.
    pose proof (Hc dead) as H5. unfold one_if in *. simpl in *.
    rewrite Hp in *. simpl in *. f_equal; lia.
  - intros job w so se cfg tl tn tu Hs.
    assert (∃ r, db !! id job = Some r ∧ state r = pending) as (r & Hr & Hp).
    { destruct (db !! id job) as [r|] eqn:Hr.
      - destruct (decide (state r = pending)); [eauto|].
        rewrite executeJob_lost_race in Hs; [done|]. rewrite Hr. simpl.
        congruence.
      - rewrite executeJob_lost_race in Hs; [done|]. by rewrite Hr. }
    rewrite (executeJob_resolved_row db job w so se cfg tl tn tu r Hr Hp).
    simpl. rewrite !getStats_counts. simpl.
    pose proof (λ st, count_state_replace st db (id job) r
      (mkRow (command r) completed (attempts r) (max_retries r)
             (created_at r) tu (next_retry_at r) None None) Hr) as Hc.
    pose proof (Hc pending) as H1. pose proof (Hc processing) as H2.
    pose proof (Hc completed) as H3. pose proof (Hc failed) as H4.
    pose proof (Hc dead) as H5. unfold one_if in *. simpl in *.
    rewrite Hp in *. simpl in *. f_equal; lia.
Qed.

End counting.

(** Enqueue, claim and complete one job. *)
Lemma getStats_follows_operations_witness :
  getStats (enqueue (mkJobData (Some "a") (Some "ls") None) Config.initial
                    1 2 3 ∅).2 = mkStats 1 0 0 0 0 ∧
  n_processing
    (getStats (lockJob "a" "w" 5
                 {["a" := mkRow "ls" pending 0 3 1 2 None None None]}).2)
    = 1%nat ∧
  n_completed
    (getStats (executeJob
                 (mkJob "a" (mkRow "ls" pending 0 3 1 2 None None None)) "w"
                 (Resolved "" "") Config.initial 5 6 7
                 {["a" := mkRow "ls" pending 0 3 1 2 None None None]}).2)
    = 1%nat.
Proof.
  split; [|split].
  - destruct (getStats_follows_operations ∅) as (H & _).
    exact (H (mkJobData (Some "a") (Some "ls") None) Config.initial 1 2 3
             (mkJob "a" (mkRow "ls" pending 0 3 1 2 None None None))
             {["a" := mkRow "ls" pending 0 3 1 2 None None None]} eq_refl).
  - destruct (getStats_follows_operations
                {["a" := mkRow "ls" pending 0 3 1 2 None None None]})
      as (_ & H & _).
    specialize (H "a" "w" 5 eq_refl).
    apply (f_equal n_processing) in H. exact H.
  - destruct (getStats_follows_operations
                {["a" := mkRow "ls" pending 0 3 1 2 None None None]})
      as (_ & _ & H).
    specialize (H (mkJob "a" (mkRow "ls" pending 0 3 1 2 None None None)) "w"
                  "" "" Config.initial 5 6 7 eq_refl).
    apply (f_equal n_completed) in H. exact H.
Defined.

(** ** What no operation does: lose a job or rewrite its identity *)

Section identity.
Implicit Types (db : gmap string Row) (i k : string) (r : Row).

Lemma keeps_jobs_refl db : keeps_jobs db db.
Proof. intros k r H. exists r. by split. Qed.

Lemma keeps_jobs_trans db1 db2 db3 :
  keeps_jobs db1 db2 → keeps_jobs db2 db3 → keeps_jobs db1 db3.
Proof.
  intros H12 H23 k r Hr.
  destruct (H12 k r Hr) as (r2 & Hr2 & Hc2 & Hm2 & Ht2).
  destruct (H23 k r2 Hr2) as (r3 & Hr3 & Hc3 & Hm3 & Ht3).
  exists r3. split; [done|]. unfold same_identity. split_and!; congruence.
Qed.

Lemma updateJob_keeps_jobs db i u now : keeps_jobs db (updateJob i u now db).2.
Proof.
  intros k r H. destruct (decide (i = k)) as [->|].
  - rewrite updateJob_lookup, H. simpl. eexists. split; [done|]. by split.
  - rewrite updateJob_lookup_ne by done. exists r. by split.
Qed.

Lemma lockJob_keeps_jobs db i w now : keeps_jobs db (lockJob i w now db).2.
Proof.
  intros k r H. unfold lockJob.
  destruct (db !! i) as [r0|] eqn:E; [|by apply keeps_jobs_refl].
  destruct (decide (state r0 = pending)); [|by apply keeps_jobs_refl]. simpl.
  destruct (decide (i = k)) as [->|].
  - rewrite lookup_insert_eq. rewrite E in H. injection H as ->.
    eexists. split; [done|]. by split.
  - rewrite lookup_insert_ne by done. exists r. by split.
Qed.

Lemma enqueue_keeps_jobs db jobData cfg tc tu ti :
  keeps_jobs db (enqueue jobData cfg tc tu ti db).2.
Proof.
  unfold enqueue.
  destruct (js_not_str (d_id jobData)); [apply keeps_jobs_refl|].
  destruct (js_not_str (d_command jobData)); [apply keeps_jobs_refl|].
  destruct (getJob _ db) eqn:E; [apply keeps_jobs_refl|].
  apply getJob_None in E.
  unfold createJob. simpl. rewrite E. unfold getJob.
  rewrite lookup_insert_eq. simpl. intros k r H.
  rewrite lookup_insert_ne by congruence. exists r. by split.
Qed.

Lemma getNextJob_keeps_jobs db tq tu : keeps_jobs db (getNextJob tq tu db).2.
Proof.
  unfold getNextJob. destruct (getNextPendingJob db); [apply keeps_jobs_refl|].
  destruct (getRetryableJobs tq db); [|apply keeps_jobs_refl].
  apply updateJob_keeps_jobs.
Qed.

Lemma executeJob_rejected_keeps_jobs db job message cfg tn tu :
  keeps_jobs db (executeJob_rejected job message cfg tn tu db).2.
Proof.
  unfold executeJob_rejected.
  destruct (_ >=? _); [apply updateJob_keeps_jobs|].
  destruct (Date_toISOString _);
    [apply updateJob_keeps_jobs | apply keeps_jobs_refl].
Qed.

Lemma retryFromDLQ_keeps_jobs db i now :
  keeps_jobs db (Storage.retryFromDLQ i now db).2.
Proof.
  unfold Storage.retryFromDLQ.
  destruct (getJob i db); [|apply keeps_jobs_refl].
  destruct (decide _); [apply updateJob_keeps_jobs | apply keeps_jobs_refl].
Qed.

Lemma call_keeps_jobs s s' :
  Worker.call s s' → keeps_jobs (jobs s) (jobs s').
Proof.
  destruct 1; simpl.
  - apply enqueue_keeps_jobs.
  - apply getNextJob_keeps_jobs.
  - apply lockJob_keeps_jobs.
  - apply updateJob_keeps_jobs.
  - apply executeJob_rejected_keeps_jobs.
  - apply updateJob_keeps_jobs.
  - apply retryFromDLQ_keeps_jobs.
Qed.

Lemma step_keeps_jobs s s' :
  Worker.step s s' → keeps_jobs (jobs s) (jobs s').
Proof.
  destruct 1; simpl;
    [by apply call_keeps_jobs | apply keeps_jobs_refl
    | apply updateJob_keeps_jobs | apply keeps_jobs_refl
    | apply keeps_jobs_refl | apply updateJob_keeps_jobs].
Qed.

Lemma keeps_jobs_size db db' : keeps_jobs db db' → (size db ≤ size db')%nat.
Proof.
  intros H. rewrite <- !size_dom. apply subseteq_size.
  intros k Hk. apply elem_of_dom in Hk as [r Hr]. apply elem_of_dom.
  destruct (H k r Hr) as (r' & Hr' & _). eauto.
Qed.

End identity.

(** X13. Whatever the processes do, in any order, no job is ever removed
    from the table and no job's command, [max_retries] or [created_at] is
    ever rewritten; the number of jobs never goes down. *)
Theorem jobs_are_never_lost (s s' : System) :
  rtc Worker.step s s' →
  (∀ i r, jobs s !! i = Some r →
     ∃ r', jobs s' !! i = Some r' ∧ command r' = command r ∧
           max_retries r' = max_retries r ∧ created_at r' = created_at r) ∧
  (size (jobs s) ≤ size (jobs s'))%nat.
Proof.
  intros H. assert (keeps_jobs (jobs s) (jobs s')) as Hk.
  { induction H as [|s1 s2 s3 H12 _ IH]; [apply keeps_jobs_refl|].
    eapply keeps_jobs_trans; [by apply step_keeps_jobs | done]. }
  split; [exact Hk | by apply keeps_jobs_size].
Qed.

(** The sample job, from its enqueuing to its first failure. *)
Lemma jobs_are_never_lost_witness :
  ∃ r', jobs sample_failed !! "j1" = Some r' ∧ command r' = "exit 1" ∧
        max_retries r' = 3 ∧ created_at r' = 10.
Proof.
  destruct (jobs_are_never_lost sample_enqueued sample_failed) as [H _].
  - eapply rtc_l; [apply step_call;
                     apply (call_getNextJob sample_enqueued 20 20)|].
    eapply rtc_l; [apply step_call;
                   apply (call_claim sample_polled "j1" "w1" 21)|].
    eapply rtc_l; [|apply rtc_refl].
    apply step_call.
    apply (call_rejected sample_claimed sample_job (Some "boom")
             Config.initial 30 31).
    apply list_elem_of_here.
  - apply (H "j1" (mkRow "exit 1" pending 0 3 10 10 None None None)).
    reflexivity.
Defined.

(** ** Attempts are counted from the first failure *)

Lemma reachable_attempts_counted (s : System) :
  Worker.reachable s →
  (∀ j : Job, j ∈ handed s → 0 ≤ attempts j) ∧
  all_rows attempts_counted (jobs s).
Proof.
  unfold Worker.reachable. revert s. apply rtc_ind_r.
  - split.
    + intros j Hj. by apply elem_of_nil in Hj.
    + intros k r Hr. simpl in Hr. by rewrite lookup_empty in Hr.
  - intros s s' _ Hs (Hh & Hr).
    assert (∀ (i : string) u now,
              (∀ r, attempts_counted r →
                    attempts_counted (apply_updates u now r)) →
              all_rows attempts_counted (updateJob i u now (jobs s)).2)
      as Hupd.
    { intros i u now Hu. apply updateJob_all_rows; [done|]. auto. }
    assert (all_rows attempts_counted (jobs s')) as Hr'.
    { destruct Hs as [s s' Hc|s tq job Hsel|s job tu Hin|s job j' Hin Hget
                     |s i Hd|s i now Hin]; simpl; auto.
      - destruct Hc as [| | | |s job message cfg tn tu Hin| |]; simpl.
        + apply enqueue_all_rows; [done|]. unfold attempts_counted. simpl.
          intros. split; [done | congruence].
        + apply getNextJob_all_rows; [done|]. unfold attempts_counted. simpl.
          intros r _ [? _]. split; [done | congruence].
        + apply lockJob_all_rows; [done|]. unfold attempts_counted. simpl.
          intros r Hl _. split; [by apply (Hr _ _ Hl) | congruence].
        + apply Hupd. unfold attempts_counted. simpl.
          intros r [? _]. split; [done | congruence].
        + specialize (Hh job Hin). unfold executeJob_rejected.
          destruct (_ >=? _).
          * apply Hupd. unfold attempts_counted. simpl.
            intros. split; [lia | congruence].
          * destruct (Date_toISOString _); [|done].
            apply Hupd. unfold attempts_counted. simpl. intros. split; lia.
        + apply Hupd. unfold attempts_counted. simpl.
          intros r [? _]. split; [done | congruence].
        + apply retryFromDLQ_all_rows; [done|]. unfold attempts_counted.
          simpl. intros. split; [done | congruence].
      - apply Hupd. unfold attempts_counted. simpl.
        intros r [? _]. split; [done | congruence].
      - apply Hupd. unfold attempts_counted. simpl.
        intros. split; [done | congruence]. }
    split; [|done]. intros j Hj.
    assert (j ∈ handed s ∨ in_table (jobs s') j) as [Hold|Hnew].
    { destruct Hs as [s s' Hc|s tq job Hsel|s job tu Hin|s job j' Hin Hget
                     |s i Hd|s i now Hin]; simpl in *; auto.
      - destruct Hc; simpl in *; auto.
        destruct (getNextJob tq tu (jobs s)).1 as [j'|] eqn:E; simpl in Hj;
          auto.
        apply elem_of_cons in Hj as [->|Hj]; auto.
        right. by apply getNextJob_returned.
      - apply elem_of_cons in Hj as [->|Hj]; auto.
        right. apply getJob_Some in Hget as [Hid Hrow]. unfold in_table.
        by rewrite Hid. }
    + by apply Hh.
    + by apply (Hr' _ _ Hnew).
Qed.

(** X14. In every reachable store [attempts] is never negative, and a
    failed job has failed at least once and has retries left:
    [1 <= attempts < max_retries].  So a job whose [max_retries] is below 2
    is never in state failed: its first failure is its last. *)
Theorem failed_jobs_have_been_tried (s : System) (i : string) (r : Row) :
  Worker.reachable s → jobs s !! i = Some r →
  0 ≤ attempts r ∧
  (state r = failed → 1 ≤ attempts r < max_retries r) ∧
  (max_retries r < 2 → state r ≠ failed).
Proof.
  intros Hs Hr.
  destruct (reachable_attempts_counted s Hs) as [_ Ha].
  destruct (reachable_invariants s Hs) as (_ & Hf).
  destruct (Ha i r Hr) as [H0 H1]. specialize (Hf i r Hr).
  unfold failed_is_scheduled in Hf.
  split; [done|]. split.
  - intros Hst. destruct (Hf Hst). split; [auto | done].
  - intros Hm Hst. destruct (Hf Hst). specialize (H1 Hst). lia.
Qed.

(** The sample job after its first failure: attempts 1, below 3. *)
Lemma failed_jobs_have_been_tried_witness :
  0 ≤ 1 ∧ (failed = failed → 1 ≤ 1 < 3) ∧ (3 < 2 → failed ≠ failed).
Proof.
  apply (failed_jobs_have_been_tried sample_failed "j1"
    (mkRow "exit 1" failed 1 3 10 31 (Some 2030) None (Some "boom"))).
  - exact sample_failed_reachable.
  - reflexivity.
Defined.

(** ** One worker alone: what a turn of the loop does *)

Section turns.
Implicit Types (db : gmap string Row) (j : Job).

(** What [getNextJob] returns is pending in the table it leaves. *)
Lemma getNextJob_returns_pending db tq tu j :
  (getNextJob tq tu db).1 = Some j →
  in_table (getNextJob tq tu db).2 j ∧ state j = pending.
Proof.
  intros H. split; [by apply getNextJob_returned|].
  unfold getNextJob in H. destruct (getNextPendingJob db) as [p|] eqn:Ep.
  - simpl in H. injection H as <-.
    by apply getNextPendingJob_Some in Ep as (_ & ? & _).
  - destruct (getRetryableJobs tq db) as [f|] eqn:Ef; [|done]. simpl in H.
    apply getRetryableJobs_Some in Ef as (Hin & _).
    apply getJob_Some in H as [_ H].
    unfold updateJob in H. simpl in H. rewrite lookup_alter_eq in H.
    unfold in_table in Hin. rewrite Hin in H. simpl in H.
    injection H as H. by rewrite <- H.
Qed.

Lemma getNextJob_None_iff db tq tu :
  (getNextJob tq tu db).1 = None
  ↔ ∀ j, in_table db j → state j ≠ pending ∧ ¬ retryable_at tq j.
Proof.
  unfold getNextJob. split.
  - destruct (getNextPendingJob db) as [p|] eqn:Ep; [done|].
    destruct (getRetryableJobs tq db) as [f|] eqn:Ef.
    + simpl. intros H. apply getJob_None in H.
      apply getRetryableJobs_Some in Ef as (Hin & _).
      unfold updateJob in H. simpl in H. rewrite lookup_alter_eq in H.
      unfold in_table in Hin. by rewrite Hin in H.
    + intros _ j Hj. split.
      * by apply (proj1 (getNextPendingJob_None db) Ep).
      * by apply (proj1 (getRetryableJobs_None tq db) Ef).
  - intros H.
    assert (getNextPendingJob db = None) as ->.
    { apply getNextPendingJob_None. intros p Hp. by apply H. }
    assert (getRetryableJobs tq db = None) as ->; [|done].
    apply getRetryableJobs_None. intros p Hp. by apply H.
Qed.

Lemma getNextJob_None_unchanged db tq tu :
  (getNextJob tq tu db).1 = None → (getNextJob tq tu db).2 = db.
Proof.
  unfold getNextJob. destruct (getNextPendingJob db) as [p|]; [done|].
  destruct (getRetryableJobs tq db) as [f|] eqn:Ef; [|done].
  simpl. intros H. apply getJob_None in H.
  apply getRetryableJobs_Some in Ef as (Hin & _).
  unfold updateJob in H. simpl in H. rewrite lookup_alter_eq in H.
  unfold in_table in Hin. by rewrite Hin in H.
Qed.

(** A turn in which the command succeeds either finds nothing to do or
    replaces one row that was not completed by a completed one. *)
Lemma iteration_resolved_turn db w so se cfg tq tr tl tn tu :
  iteration w (Resolved so se) cfg tq tr tl tn tu db = (None, db) ∨
  ∃ i r0 r1, db !! i = Some r0 ∧ state r0 ≠ completed ∧
    state r1 = completed ∧
    iteration w (Resolved so se) cfg tq tr tl tn tu db
    = (Some (Success so se), <[i := r1]> db).
Proof.
  unfold iteration, getNextJob.
  destruct (getNextPendingJob db) as [p|] eqn:Ep.
  - right. apply getNextPendingJob_Some in Ep as (Hin & Hp & _).
    rewrite (executeJob_resolved_row db p w so se cfg tl tn tu _ Hin Hp).
    eexists _, _, _. split; [exact Hin|]. split; [congruence|].
    split; [|reflexivity]. done.
  - destruct (getRetryableJobs tq db) as [f|] eqn:Ef; [|by left].
    right. apply getRetryableJobs_Some in Ef as (Hin & (Hf & _) & _).
    rewrite (updateJob_stored db (id f) requeue_updates tr _ Hin). simpl.
    unfold getJob. rewrite lookup_insert_eq.
    rewrite (executeJob_resolved_row _ (mkJob (id f) _) w so se cfg tl tn tu
               (apply_updates requeue_updates tr f));
      [|by simpl; rewrite lookup_insert_eq|done].
    simpl. rewrite insert_insert_eq.
    eexists _, _, _. split; [exact Hin|]. split; [congruence|].
    split; [|reflexivity]. done.
Qed.

End turns.

Lemma iteration_idle (db : gmap string Row) (w : string)
    (outcome : ExecOutcome) (cfg : ConfigTable) (tq tr tl tn tu : Z) :
  (iteration w outcome cfg tq tr tl tn tu db).1 ≠ Some LostRace ∧
  ((iteration w outcome cfg tq tr tl tn tu db).1 = None
   ↔ ∀ j, in_table db j → state j ≠ pending ∧ ¬ retryable_at tq j) ∧
  ((iteration w outcome cfg tq tr tl tn tu db).1 = None →
   (iteration w outcome cfg tq tr tl tn tu db).2 = db).
Proof.
  pose proof (getNextJob_returns_pending db tq tr) as Hret.
  pose proof (getNextJob_None_iff db tq tr) as Hnone.
  pose proof (getNextJob_None_unchanged db tq tr) as Hsame.
  unfold iteration.
  destruct (getNextJob tq tr db) as [[job|] db1]; simpl in *.
  - destruct (Hret job eq_refl) as [Hin Hp].
    assert (∃ res db2, executeJob job w outcome cfg tl tn tu db1 = (res, db2)
                       ∧ res ≠ LostRace) as (res & db2 & -> & Hres).
    { destruct outcome as [so se|message].
      - rewrite (executeJob_resolved_row db1 job w so se cfg tl tn tu _ Hin Hp).
        by eexists _, _.
      - rewrite (executeJob_rejected_row db1 job w message cfg tl tn tu _
                   Hin Hp).
        destruct (_ >=? _); [by eexists _, _|].
        destruct (Date_toISOString _); by eexists _, _. }
    simpl. split; [congruence|]. split; [|done].
    split; [done|]. intros H. by apply Hnone in H.
  - split; [done|]. split; [|auto].
    split; [intros _; by apply Hnone | done].
Qed.

(** X15. A worker that runs alone never loses a claim: a turn of its loop
    either executes a job or does nothing and writes nothing.  With the
    clock and the stored retry instants in the years 0000 to 9999, it does
    nothing exactly when no job is pending and no retry is due. *)
Theorem iteration_never_loses_race (db : gmap string Row) (w : string)
    (outcome : ExecOutcome) (cfg : ConfigTable) (tq tr tl tn tu : Z) :
  (iteration w outcome cfg tq tr tl tn tu db).1 ≠ Some LostRace ∧
  (four_digit_year tq → retries_in_four_digit_years db →
   ((iteration w outcome cfg tq tr tl tn tu db).1 = None
    ↔ ∀ j, in_table db j → state j ≠ pending ∧ ¬ due_at tq j)) ∧
  ((iteration w outcome cfg tq tr tl tn tu db).1 = None →
   (iteration w outcome cfg tq tr tl tn tu db).2 = db).
Proof.
  destruct (iteration_idle db w outcome cfg tq tr tl tn tu)
    as (H1 & H2 & H3).
  split; [done|]. split; [|done]. intros Hq Hdb. rewrite H2.
  split; intros H j Hj; destruct (H j Hj) as [Hp Hr]; (split; [done|]);
    intros Hd; apply Hr;
    apply (retryable_at_due tq j Hq (λ t, Hdb (id j) j t Hj)); done.
Qed.

(** A store whose only job waits for a retry that is not yet due: the
    worker idles. *)
Lemma iteration_never_loses_race_witness :
  iteration "w" (Resolved "" "") Config.initial 100 101 102 103 104
            {["a" := mkRow "ls" failed 1 3 1 4 (Some 500) None (Some "e")]}
  = (None, {["a" := mkRow "ls" failed 1 3 1 4 (Some 500) None (Some "e")]}).
Proof.
  destruct (iteration_never_loses_race
              {["a" := mkRow "ls" failed 1 3 1 4 (Some 500) None (Some "e")]}
              "w" (Resolved "" "") Config.initial 100 101 102 103 104)
    as (_ & H2 & H3).
  assert ((iteration "w" (Resolved "" "") Config.initial 100 101 102 103 104
             {["a" := mkRow "ls" failed 1 3 1 4 (Some 500) None (Some "e")]}).1
          = None) as Hn.
  { apply H2.
    - split; [discriminate | reflexivity].
    - intros k r t Hk Ht. apply lookup_singleton_Some in Hk as [_ <-].
      injection Ht as <-. split; [discriminate | reflexivity].
    - intros j Hj. unfold in_table in Hj.
      apply lookup_singleton_Some in Hj as [_ <-].
      split; [discriminate|].
      intros (_ & _ & [Hnone|(t & [= <-] & Hle)]); [discriminate | lia]. }
  specialize (H3 Hn). destruct (iteration _ _ _ _ _ _ _ _ _) as [res db'].
  simpl in *. by rewrite Hn, H3.
Defined.

(** X16. While a job is pending, a turn whose command succeeds executes a
    pending job with the least [created_at] and leaves it completed, with
    no owner and no error; due retries wait. *)
Theorem iteration_completes_oldest_pending (db : gmap string Row)
    (w so se : string) (cfg : ConfigTable) (tq tr tl tn tu : Z) (p : Job) :
  in_table db p → state p = pending →
  ∃ j, in_table db j ∧ state j = pending ∧
    (∀ p', in_table db p' → state p' = pending →
           created_at j ≤ created_at p') ∧
    iteration w (Resolved so se) cfg tq tr tl tn tu db
    = (Some (Success so se),
       <[id j := mkRow (command j) completed (attempts j) (max_retries j)
                       (created_at j) tu (next_retry_at j) None None]> db).
Proof.
  intros Hin Hp. unfold iteration, getNextJob.
  destruct (getNextPendingJob db) as [j|] eqn:E.
  - apply getNextPendingJob_Some in E as (Hj & Hjp & Hleast).
    exists j. split; [done|]. split; [done|]. split; [done|].
    by rewrite (executeJob_resolved_row db j w so se cfg tl tn tu _ Hj Hjp).
  - rewrite getNextPendingJob_None in E. by destruct (E p Hin).
Qed.

(** Two pending jobs and a due retry: the older pending job is run. *)
Lemma iteration_completes_oldest_pending_witness :
  ∃ j, created_at j ≤ 7 ∧
    (iteration "w" (Resolved "" "") Config.initial 100 101 102 103 104
       {["a" := mkRow "c1" pending 0 3 7 7 None None None;
         "b" := mkRow "c2" pending 0 3 3 3 None None None;
         "c" := mkRow "c3" failed 1 3 1 2 (Some 50) None (Some "e")]}).1
    = Some (Success "" "").
Proof.
  destruct (iteration_completes_oldest_pending
    {["a" := mkRow "c1" pending 0 3 7 7 None None None;
      "b" := mkRow "c2" pending 0 3 3 3 None None None;
      "c" := mkRow "c3" failed 1 3 1 2 (Some 50) None (Some "e")]}
    "w" "" "" Config.initial 100 101 102 103 104
    (mkJob "a" (mkRow "c1" pending 0 3 7 7 None None None)))
    as (j & _ & _ & Hle & Heq); [reflexivity | reflexivity |].
  exists j. split.
  - apply (Hle (mkJob "a" (mkRow "c1" pending 0 3 7 7 None None None)));
      reflexivity.
  - by rewrite Heq.
Defined.

(** X17. Until it is claimed, the same job is handed to every poller: when
    [getNextJob] returns a job, the next [getNextJob], at any time, returns
    that very job again and writes nothing. *)
Theorem getNextJob_hands_out_same_job (db : gmap string Row) (tq tu : Z)
    (j : Job) :
  (getNextJob tq tu db).1 = Some j →
  ∀ tq' tu', getNextJob tq' tu' (getNextJob tq tu db).2
             = (Some j, (getNextJob tq tu db).2).
Proof.
  intros H tq' tu'.
  destruct (getNextJob_returns_pending db tq tu j H) as [Hin Hp].
  assert (getNextPendingJob (getNextJob tq tu db).2 = Some j) as Hsel.
  { destruct (getNextPendingJob (getNextJob tq tu db).2) as [m|] eqn:Em.
    2:{ rewrite getNextPendingJob_None in Em. by destruct (Em j Hin). }
    unfold getNextJob in *.
    destruct (getNextPendingJob db) as [p|] eqn:Ep; [simpl in *; congruence|].
    destruct (getRetryableJobs tq db) as [f|] eqn:Ef; [|done]. simpl in *.
    apply getNextPendingJob_Some in Em as (Hm & Hmp & _).
    apply getJob_Some in H as [Hid Hj].
    destruct (decide (id f = id m)) as [Heq|Hne].
    - f_equal. unfold in_table in Hm. rewrite <- Heq, Hj in Hm.
      destruct m as [km rm], j as [kj rj]. simpl in *. congruence.
    - unfold in_table in Hm. rewrite lookup_alter_ne in Hm by done.
      rewrite getNextPendingJob_None in Ep. by destruct (Ep m Hm). }
  unfold getNextJob at 1. by rewrite Hsel.
Qed.

(** A due retry is re-queued by the first poll and returned by both. *)
Lemma getNextJob_hands_out_same_job_witness :
  getNextJob 200 201
    (getNextJob 100 101
       {["a" := mkRow "c1" failed 1 3 7 8 (Some 50) None (Some "e")]}).2
  = (Some (mkJob "a" (mkRow "c1" pending 1 3 7 101 None None (Some "e"))),
     (getNextJob 100 101
        {["a" := mkRow "c1" failed 1 3 7 8 (Some 50) None (Some "e")]}).2).
Proof.
  apply (getNextJob_hands_out_same_job
           {["a" := mkRow "c1" failed 1 3 7 8 (Some 50) None (Some "e")]}
           100 101).
  reflexivity.
Defined.

(** X24. With the clock reading and every stored retry instant in the
    years 0000 to 9999: if some job is pending, [getNextJob] returns a
    pending job whose [created_at] is least among the pending ones and
    writes nothing.  Otherwise, if some failed job with retries left is due
    (no retry instant, or one that is not after the clock reading), it picks
    such a job that is due no later than any other (a job without retry
    instant first), sets it to pending with [next_retry_at] NULL and a
    fresh [updated_at], leaves the other columns and rows alone and returns
    the row as re-read.  Otherwise it returns [null] and writes nothing. *)
Theorem getNextJob_selects_in_four_digit_years (db : gmap string Row)
    (tq tu : Z) :
  four_digit_year tq → retries_in_four_digit_years db →
  (∀ p, in_table db p → state p = pending →
     ∃ j, getNextJob tq tu db = (Some j, db) ∧
       in_table db j ∧ state j = pending ∧
       ∀ p', in_table db p' → state p' = pending →
             created_at j ≤ created_at p') ∧
  ((∀ p, in_table db p → state p ≠ pending) →
   ∀ f, in_table db f → due_at tq f →
     ∃ j r',
       in_table db j ∧ due_at tq j ∧
       (∀ f', in_table db f' → due_at tq f' →
              not_later (next_retry_at j) (next_retry_at f')) ∧
       getNextJob tq tu db = (Some (mkJob (id j) r'), <[id j := r']> db) ∧
       r' = mkRow (command j) pending (attempts j) (max_retries j)
                  (created_at j) tu None (worker_id j) (error_message j)) ∧
  ((∀ p, in_table db p → state p ≠ pending ∧ ¬ due_at tq p) →
     getNextJob tq tu db = (None, db)).
Proof.
  intros Hq Hdb.
  assert (∀ j : Job, in_table db j → retryable_at tq j ↔ due_at tq j) as Hdue.
  { intros j Hj. apply (retryable_at_due tq j Hq).
    intros t. apply (Hdb (id j) j t Hj). }
  destruct (getNextJob_cases db tq tu) as (H1 & H2 & H3).
  split; [exact H1|]. split.
  - intros Hnp f Hf Hd.
    destruct (H2 Hnp f Hf) as (j & r' & Hj & Hr & Hleast & Hg & Hr');
      [by apply Hdue|].
    exists j, r'. split; [done|]. split; [by apply Hdue|].
    split; [|done]. intros f' Hf' Hd'.
    apply null_first_le_not_later.
    + intros t. apply (Hdb (id j) j t Hj).
    + intros t. apply (Hdb (id f') f' t Hf').
    + apply Hleast; [done | by apply Hdue].
  - intros H. apply H3. intros p Hp. destruct (H p Hp) as [? Hn].
    split; [done|]. intros Hr. apply Hn. by apply Hdue.
Qed.

(** Two pending jobs: the older one is returned.  Two due retries: the one
    due first is re-queued.  A retry that is not yet due: nothing. *)
Lemma getNextJob_selects_in_four_digit_years_witness :
  (∃ j, getNextJob 100 101
          {["a" := mkRow "c1" pending 0 3 7 7 None None None;
            "b" := mkRow "c2" pending 0 3 3 3 None None None]}
        = (Some j,
           {["a" := mkRow "c1" pending 0 3 7 7 None None None;
             "b" := mkRow "c2" pending 0 3 3 3 None None None]}) ∧
        state j = pending ∧ created_at j ≤ 7) ∧
  (∃ j r', getNextJob 100 101
             {["a" := mkRow "c1" failed 1 3 7 8 (Some 50) None (Some "e");
               "b" := mkRow "c2" failed 1 3 3 9 (Some 40) None (Some "e")]}
           = (Some (mkJob (id j) r'),
              <[id j := r']>
                {["a" := mkRow "c1" failed 1 3 7 8 (Some 50) None (Some "e");
                  "b" := mkRow "c2" failed 1 3 3 9 (Some 40) None
                               (Some "e")]}) ∧
           not_later (next_retry_at j) (Some 50) ∧
           r' = mkRow (command j) pending (attempts j) (max_retries j)
                      (created_at j) 101 None (worker_id j)
                      (error_message j)) ∧
  getNextJob 100 101
    {["a" := mkRow "c1" failed 1 3 7 8 (Some 500) None (Some "e")]}
  = (None, {["a" := mkRow "c1" failed 1 3 7 8 (Some 500) None (Some "e")]}).
Proof.
  assert (four_digit_year 100) as Hq by (split; [discriminate | reflexivity]).
  split; [|split].
  - destruct (getNextJob_selects_in_four_digit_years
      {["a" := mkRow "c1" pending 0 3 7 7 None None None;
        "b" := mkRow "c2" pending 0 3 3 3 None None None]} 100 101 Hq)
      as (H & _ & _).
    { intros k r t Hk Ht.
      apply lookup_insert_Some in Hk as [[_ <-]|[_ Hk]]; [discriminate|].
      apply lookup_singleton_Some in Hk as [_ <-]. discriminate. }
    destruct (H (mkJob "a" (mkRow "c1" pending 0 3 7 7 None None None)))
      as (j & Hj & _ & Hp & Hle); [reflexivity | reflexivity |].
    exists j. split; [exact Hj|]. split; [exact Hp|].
    apply (Hle (mkJob "a" (mkRow "c1" pending 0 3 7 7 None None None)));
      reflexivity.
  - destruct (getNextJob_selects_in_four_digit_years
      {["a" := mkRow "c1" failed 1 3 7 8 (Some 50) None (Some "e");
        "b" := mkRow "c2" failed 1 3 3 9 (Some 40) None (Some "e")]}
      100 101 Hq) as (_ & H & _).
    { intros k r t Hk Ht.
      apply lookup_insert_Some in Hk as [[_ <-]|[_ Hk]];
        [|apply lookup_singleton_Some in Hk as [_ <-]];
        injection Ht as <-; (split; [discriminate | reflexivity]). }
    destruct (H) with
      (f := mkJob "a" (mkRow "c1" failed 1 3 7 8 (Some 50) None (Some "e")))
      as (j & r' & _ & _ & Hleast & Hg & Hr').
    + intros p Hp. unfold in_table in Hp.
      apply lookup_insert_Some in Hp as [[_ <-]|[_ Hp]]; [discriminate|].
      apply lookup_singleton_Some in Hp as [_ <-]. discriminate.
    + reflexivity.
    + split; [reflexivity|]. split; [reflexivity|].
      right. exists 50. split; [reflexivity | discriminate].
    + exists j, r'. split; [exact Hg|]. split; [|exact Hr'].
      apply (Hleast
        (mkJob "a" (mkRow "c1" failed 1 3 7 8 (Some 50) None (Some "e"))));
        [reflexivity|].
      split; [reflexivity|]. split; [reflexivity|].
      right. exists 50. split; [reflexivity | discriminate].
  - apply (getNextJob_selects_in_four_digit_years
      {["a" := mkRow "c1" failed 1 3 7 8 (Some 500) None (Some "e")]}
      100 101 Hq).
    + intros k r t Hk Ht. apply lookup_singleton_Some in Hk as [_ <-].
      injection Ht as <-. split; [discriminate | reflexivity].
    + intros p Hp. unfold in_table in Hp.
      apply lookup_singleton_Some in Hp as [_ <-].
      split; [discriminate|].
      intros (_ & _ & [Hnone|(t & [= <-] & Hle)]); [discriminate | lia].
Defined.

(** X25. A retry instant beyond year 9999 does not hold a job back: a
    failed job with retries left that carries one is retryable at every
    clock reading of a four-digit year, so with no job pending [getNextJob]
    re-queues a job at once; and the job it re-queues has no retry instant
    or one beyond year 9999 itself, whatever retries of four-digit years
    are due. *)
Theorem retry_beyond_year_9999_is_always_due (db : gmap string Row)
    (tq tu : Z) (f : Job) (t : Z) :
  four_digit_year tq →
  in_table db f → state f = failed → attempts f < max_retries f →
  next_retry_at f = Some t → YEAR_10000 ≤ t →
  tq < t ∧
  is_retryable tq f = true ∧
  ((∀ p, in_table db p → state p ≠ pending) →
   ∃ j, (getNextJob tq tu db).1 = Some j ∧ state j = pending ∧
        next_retry_at j = None ∧
        (getNextJob tq tu db).2 !! id j = Some (fields j) ∧
        ∃ r, db !! id j = Some r ∧ state r = failed ∧
             ∀ t', next_retry_at r = Some t' → YEAR_10000 ≤ t' ≤ t).
Proof.
  intros Hq Hf Hs Ha Ht Hbig.
  assert (tq < t) as Hlt by (unfold four_digit_year in Hq; lia).
  assert (retryable_at tq f) as Hr.
  { split; [done|]. split; [done|]. right. exists t. split; [done|].
    by apply iso_text_le_beyond. }
  split; [done|]. split; [by apply is_retryable_spec|].
  intros Hnp.
  destruct (getNextJob_cases db tq tu) as (_ & H2 & _).
  destruct (H2 Hnp f Hf Hr) as (j & r' & Hj & Hrj & Hleast & Hg & Hr').
  exists (mkJob (id j) r'). rewrite Hg. simpl. subst r'. simpl.
  split; [done|]. split; [done|]. split; [done|].
  split; [by rewrite lookup_insert_eq|].
  exists j. split; [done|]. split; [by destruct Hrj|].
  intros t' Ht'. specialize (Hleast f Hf Hr).
  rewrite Ht', Ht in Hleast. simpl in Hleast.
  unfold iso_text_le, iso_key in Hleast.
  assert (YEAR_0 < YEAR_10000) by done.
  rewrite (proj2 (Z.ltb_ge t YEAR_0)), (proj2 (Z.ltb_ge t YEAR_10000))
    in Hleast by lia.
  destruct (Z.ltb_spec t' YEAR_0); [discriminate|].
  destruct (Z.ltb_spec t' YEAR_10000); [discriminate|].
  simpl in Hleast. apply Z.leb_le in Hleast. lia.
Qed.

(** The job of the failing input of C5, alone in the table. *)
Lemma retry_beyond_year_9999_is_always_due_witness :
  1793000001000 < 1001793000000005 ∧
  is_retryable 1793000001000 (mkJob "j1" far_retry) = true ∧
  ∃ j, (getNextJob 1793000001000 1793000001001 {["j1" := far_retry]}).1
       = Some j ∧ state j = pending ∧ next_retry_at j = None.
Proof.
  destruct (retry_beyond_year_9999_is_always_due {["j1" := far_retry]}
              1793000001000 1793000001001 (mkJob "j1" far_retry)
              1001793000000005)
    as (H1 & H2 & H3);
    [split; [discriminate | reflexivity] | reflexivity | reflexivity
    | reflexivity | reflexivity | discriminate |].
  split; [exact H1|]. split; [exact H2|].
  destruct H3 as (j & Hj & Hp & Hn & _).
  - intros p Hp. unfold in_table in Hp.
    apply lookup_singleton_Some in Hp as [_ <-]. discriminate.
  - exists j. auto.
Defined.

(** X26. With the calls of the processes run one after the other, each to
    its end, a row has a non-NULL [worker_id] exactly when its state is
    processing. *)
Theorem serial_calls_keep_worker_id_on_processing (s : System) (i : string)
    (r : Row) :
  serially_reachable s → jobs s !! i = Some r →
  (worker_id r ≠ None ↔ state r = processing).
Proof.
  intros Hs Hr. apply serially_reachable_owned in Hs. exact (Hs i r Hr).
Qed.

(** The claimed sample job is owned by [w1] and in processing. *)
Lemma serial_calls_keep_worker_id_on_processing_witness :
  worker_id (mkRow "exit 1" processing 0 3 10 21 None (Some "w1") None) ≠ None
  ↔ state (mkRow "exit 1" processing 0 3 10 21 None (Some "w1") None)
    = processing.
Proof.
  apply (serial_calls_keep_worker_id_on_processing sample_claimed "j1").
  - exact sample_claimed_serial.
  - reflexivity.
Defined.

(** X27. The UPDATE by which [getNextJob] re-queues a job looks at the id
    only.  When it comes after another worker's re-queuing and claim of the
    same job, it puts the row back to pending and leaves the claimer's
    [worker_id] on it, and the next claim succeeds: a second worker runs the
    job while the first is still at it.  No other row changes. *)
Theorem requeue_after_claim_reopens_job (db : gmap string Row)
    (i w w' : string) (t1 t2 t3 t4 : Z) (r : Row) :
  db !! i = Some r →
  (lockJob i w t2 (updateJob i requeue_updates t1 db).2).1 = true ∧
  (lockJob i w t2 (updateJob i requeue_updates t1 db).2).2 !! i
    = Some (mkRow (command r) processing (attempts r) (max_retries r)
                  (created_at r) t2 None (Some w) (error_message r)) ∧
  requeue_claim_requeue i w t1 t2 t3 db !! i
    = Some (mkRow (command r) pending (attempts r) (max_retries r)
                  (created_at r) t3 None (Some w) (error_message r)) ∧
  lockJob i w' t4 (requeue_claim_requeue i w t1 t2 t3 db)
    = (true,
       <[i := mkRow (command r) processing (attempts r) (max_retries r)
                    (created_at r) t4 None (Some w') (error_message r)]>
         (requeue_claim_requeue i w t1 t2 t3 db)) ∧
  (∀ k, k ≠ i → requeue_claim_requeue i w t1 t2 t3 db !! k = db !! k).
Proof.
  intros Hr. unfold requeue_claim_requeue.
  rewrite (updateJob_stored db i requeue_updates t1 r Hr). cbn [snd].
  rewrite (lockJob_claimed _ i w t2 (apply_updates requeue_updates t1 r))
    by (by rewrite ?lookup_insert_eq).
  cbn [fst snd].
  rewrite (updateJob_stored _ i requeue_updates t3
             (mkRow (command r) processing (attempts r) (max_retries r)
                    (created_at r) t2 None (Some w) (error_message r)))
    by (by rewrite lookup_insert_eq).
  cbn [snd]. rewrite !lookup_insert_eq.
  split; [done|]. split; [done|]. split; [done|]. split.
  - by rewrite (lockJob_claimed _ i w' t4
                  (mkRow (command r) pending (attempts r) (max_retries r)
                         (created_at r) t3 None (Some w) (error_message r)))
      by (by rewrite ?lookup_insert_eq).
  - intros k Hk. by rewrite !lookup_insert_ne.
Qed.

(** The sample job after its first failure, re-queued by [w2] and [w3]. *)
Lemma requeue_after_claim_reopens_job_witness :
  requeue_claim_requeue "j1" "w2" 3001 3002 3003 (jobs sample_failed) !! "j1"
    = Some (mkRow "exit 1" pending 1 3 10 3003 None (Some "w2")
                  (Some "boom")) ∧
  (lockJob "j1" "w3" 3004
     (requeue_claim_requeue "j1" "w2" 3001 3002 3003 (jobs sample_failed))).1
    = true.
Proof.
  destruct (requeue_after_claim_reopens_job (jobs sample_failed) "j1" "w2"
              "w3" 3001 3002 3003 3004
              (mkRow "exit 1" failed 1 3 10 31 (Some 2030) None
                     (Some "boom")))
    as (_ & _ & H3 & H4 & _); [reflexivity|].
  split; [exact H3|]. by rewrite H4.
Defined.

(** X18. A job revived from the dead-letter queue starts over: in the run
    of consecutive failures that follows, the first failure counts as
    attempt 1, and the job is dead again after the [n]-th failure exactly
    when [n >= max_retries]. *)
Theorem revived_job_starts_over (i w : string) (message : option string)
    (cfg : ConfigTable) (cs : list Clock) (r : Row) (now : Z) :
  state r = dead → cs ≠ [] →
  Forall is_failure
    (failing_run w message cfg cs
       (Storage.retryFromDLQ i now {[i := r]}).2).1 →
  (∀ c, cs !! 0%nat = Some c →
     (failing_run w message cfg cs
        (Storage.retryFromDLQ i now {[i := r]}).2).1 !! 0%nat
     = Some (expected_failure message cfg (max_retries r) 1 c)) ∧
  ∃ r', (failing_run w message cfg cs
           (Storage.retryFromDLQ i now {[i := r]}).2).2 = {[i := r']} ∧
    attempts r' = Z.of_nat (length cs) ∧
    (state r' = dead ↔ Z.of_nat (length cs) >= max_retries r).
Proof.
  intros Hd Hne.
  assert ((Storage.retryFromDLQ i now {[i := r]}).2
          = {[i := mkRow (command r) pending 0 (max_retries r) (created_at r)
                         now None (worker_id r) None]}) as ->.
  { unfold Storage.retryFromDLQ, getJob. rewrite lookup_singleton_eq. simpl.
    destruct (decide (state r = dead)); [|done].
    rewrite (updateJob_stored _ i _ now r) by apply lookup_singleton_eq.
    simpl. by rewrite insert_singleton_eq. }
  intros Hall.
  destruct (failing_run_results i w message cfg cs
              (mkRow (command r) pending 0 (max_retries r) (created_at r)
                     now None (worker_id r) None))
    as (Hres & r' & Hdb & Hm & Hend); [by left | done |].
  simpl in *. split.
  - intros c Hc. by destruct (Hres 0%nat c Hc) as [-> _].
  - exists r'. destruct (Hend Hne) as (He1 & He2).
    split; [done|]. split; [lia|].
    destruct He2 as [[Hs ?]|[Hs ?]]; split; intros; try done; try lia.
    congruence.
Qed.

(** A dead job with [max_retries = 2], revived and failing twice more. *)
Lemma revived_job_starts_over_witness :
  ∃ r', (failing_run "w1" (Some "boom") Config.initial
           [mkClock 1000 1000 1000 1000 1000; mkClock 5000 5000 5000 5000 5000]
           (Storage.retryFromDLQ "j1" 900
              {["j1" := mkRow "exit 1" dead 2 2 10 22 None None
                              (Some "boom")]}).2).2 = {["j1" := r']} ∧
        attempts r' = 2 ∧ (state r' = dead ↔ 2 >= 2).
Proof.
  destruct (revived_job_starts_over "j1" "w1" (Some "boom") Config.initial
              [mkClock 1000 1000 1000 1000 1000;
               mkClock 5000 5000 5000 5000 5000]
              (mkRow "exit 1" dead 2 2 10 22 None None (Some "boom")) 900)
    as (_ & Hr); [reflexivity | discriminate | | exact Hr].
  vm_compute. repeat constructor.
Defined.

(** X19. In a run of turns whose commands all succeed, every turn either
    does nothing or returns success; each executed turn completes one more
    job, and the number of jobs stays the same. *)
Theorem succeeding_run_completes (w so se : string) (cfg : ConfigTable)
    (cs : list Clock) (db : gmap string Row) :
  Forall (λ res, res = None ∨ res = Some (Success so se))
         (succeeding_run w so se cfg cs db).1 ∧
  n_completed (getStats (succeeding_run w so se cfg cs db).2)
  = (n_completed (getStats db)
     + length (filter (λ res : option ExecuteResult, is_Some res)
                      (succeeding_run w so se cfg cs db).1))%nat ∧
  size (succeeding_run w so se cfg cs db).2 = size db.
Proof.
  revert db. induction cs as [|c cs IH]; intros db.
  { simpl. split; [constructor|]. split; [lia | done]. }
  simpl.
  destruct (iteration_resolved_turn db w so se cfg (c_query c) (c_requeue c)
              (c_lock c) (c_now c) (c_update c))
    as [->|(i & r0 & r1 & Hr0 & Hs0 & Hs1 & ->)].
  - destruct (IH db) as (H1 & H2 & H3).
    destruct (succeeding_run w so se cfg cs db) as [ress db2].
    cbn [fst snd] in *.
    split; [constructor; auto|]. split; [|done].
    rewrite filter_cons_False; [done|]. by intros [? ?].
  - destruct (IH (<[i := r1]> db)) as (H1 & H2 & H3).
    destruct (succeeding_run w so se cfg cs (<[i := r1]> db)) as [ress db2].
    cbn [fst snd] in *. split; [constructor; auto|]. split.
    + rewrite filter_cons_True by eauto. cbn [length]. rewrite H2.
      rewrite !getStats_counts. simpl.
      pose proof (count_state_replace completed db i r0 r1 Hr0) as Hc.
      unfold one_if in Hc. rewrite Hs1 in Hc.
      destruct (decide (state r0 = completed)); [done|].
      destruct (decide (completed = completed)); [|done]. lia.
    + rewrite H3. by eapply size_replace.
Qed.

(** ** Rows nobody else touches *)

Section frames.
Implicit Types (db : gmap string Row) (i k : string) (r : Row).

Lemma enqueue_lookup_old db jobData cfg tc tu ti k r :
  db !! k = Some r → (enqueue jobData cfg tc tu ti db).2 !! k = Some r.
Proof.
  intros H. unfold enqueue.
  destruct (js_not_str (d_id jobData)); [done|].
  destruct (js_not_str (d_command jobData)); [done|].
  destruct (getJob _ db) eqn:E; [done|]. apply getJob_None in E.
  unfold createJob. simpl. rewrite E. unfold getJob.
  rewrite lookup_insert_eq. simpl. rewrite lookup_insert_ne; [done|].
  congruence.
Qed.

Lemma retryFromDLQ_lookup_not_dead db i now k r :
  db !! k = Some r → state r ≠ dead →
  (Storage.retryFromDLQ i now db).2 !! k = Some r.
Proof.
  intros H Hs. unfold Storage.retryFromDLQ.
  destruct (getJob i db) as [j|] eqn:E; [|done].
  apply getJob_Some in E as [<- E].
  destruct (decide (state j = dead)) as [Hd|]; [|done].
  rewrite updateJob_lookup_ne; [done|]. intros Heq.
  rewrite Heq, H in E. injection E as ->. done.
Qed.

Lemma getNextJob_lookup_not_failed db tq tu k r :
  db !! k = Some r → state r ≠ failed →
  (getNextJob tq tu db).2 !! k = Some r.
Proof.
  intros H Hs. unfold getNextJob.
  destruct (getNextPendingJob db); [done|].
  destruct (getRetryableJobs tq db) as [f|] eqn:E; [|done].
  apply getRetryableJobs_Some in E as (Hin & (Hf & _) & _).
  cbn [snd]. rewrite updateJob_lookup_ne; [done|].
  intros <-. unfold in_table in Hin. congruence.
Qed.

Lemma lockJob_lookup_not_pending db i w now k r :
  db !! k = Some r → state r ≠ pending →
  (lockJob i w now db).2 !! k = Some r.
Proof.
  intros H Hs. unfold lockJob.
  destruct (db !! i) as [r0|] eqn:E; [|done].
  destruct (decide (state r0 = pending)); [|done]. simpl.
  rewrite lookup_insert_ne; [done|]. intros ->. congruence.
Qed.

Lemma settle_lookup_ne db job outcome cfg tn tu k :
  id job ≠ k →
  (match outcome with
   | Resolved stdout stderr => executeJob_resolved job stdout stderr tu db
   | Rejected message => executeJob_rejected job message cfg tn tu db
   end).2 !! k = db !! k.
Proof.
  intros Hne. destruct outcome as [so se|message].
  - by apply updateJob_lookup_ne.
  - unfold executeJob_rejected.
    destruct (_ >=? _); [by apply updateJob_lookup_ne|].
    destruct (Date_toISOString _); [by apply updateJob_lookup_ne | done].
Qed.

End frames.

Lemma executeJob_lookup_ne (db : gmap string Row) (job : Job) (w : string)
    (outcome : ExecOutcome) (cfg : ConfigTable) (tl tn tu : Z) (k : string) :
  id job ≠ k → (executeJob job w outcome cfg tl tn tu db).2 !! k = db !! k.
Proof.
  intros Hne. unfold executeJob.
  pose proof (lockJob_lookup_ne db (id job) k w tl Hne) as Hl.
  destruct (lockJob (id job) w tl db) as [ok db1]. simpl in Hl.
  destruct ok; simpl; [|done]. rewrite <- Hl.
  apply (settle_lookup_ne db1 job outcome cfg tn tu k Hne).
Qed.

(** X22. A row in processing or completed is left as it is by a call of
    [enqueue], of [getNextJob], of [lockJob], of [retryFromDLQ] and by an
    [executeJob] of any job by any worker, when the call begins with the
    row in that state: no worker picks up a job whose worker is gone. *)
Theorem held_and_completed_rows_untouched (db : gmap string Row)
    (k : string) (r : Row) :
  db !! k = Some r → state r = processing ∨ state r = completed →
  (∀ jobData cfg tc tu ti,
     (enqueue jobData cfg tc tu ti db).2 !! k = Some r) ∧
  (∀ tq tu, (getNextJob tq tu db).2 !! k = Some r) ∧
  (∀ i w now, (lockJob i w now db).2 !! k = Some r) ∧
  (∀ i now, (Storage.retryFromDLQ i now db).2 !! k = Some r) ∧
  (∀ job w outcome cfg tl tn tu,
     (executeJob job w outcome cfg tl tn tu db).2 !! k = Some r).
Proof.
  intros Hr Hs.
  split; [|split; [|split; [|split]]].
  - intros. by apply enqueue_lookup_old.
  - intros. apply getNextJob_lookup_not_failed; [done|].
    destruct Hs; congruence.
  - intros. apply lockJob_lookup_not_pending; [done|].
    destruct Hs; congruence.
  - intros. apply retryFromDLQ_lookup_not_dead; [done|].
    destruct Hs; congruence.
  - intros job w outcome cfg tl tn tu.
    destruct (decide (id job = k)) as [Heq|Hne].
    + rewrite executeJob_lost_race; [done|]. rewrite Heq, Hr. simpl.
      destruct Hs; congruence.
    + by rewrite executeJob_lookup_ne.
Qed.

(** An orphaned job survives a poll, a claim and a revival attempt. *)
Lemma held_and_completed_rows_untouched_witness :
  (getNextJob 100 101
     {["a" := mkRow "ls" processing 0 3 1 4 None (Some "gone") None]}).2 !! "a"
    = Some (mkRow "ls" processing 0 3 1 4 None (Some "gone") None) ∧
  (lockJob "a" "w2" 100
     {["a" := mkRow "ls" processing 0 3 1 4 None (Some "gone") None]}).2 !! "a"
    = Some (mkRow "ls" processing 0 3 1 4 None (Some "gone") None) ∧
  (Storage.retryFromDLQ "a" 100
     {["a" := mkRow "ls" processing 0 3 1 4 None (Some "gone") None]}).2 !! "a"
    = Some (mkRow "ls" processing 0 3 1 4 None (Some "gone") None).
Proof.
  destruct (held_and_completed_rows_untouched
              {["a" := mkRow "ls" processing 0 3 1 4 None (Some "gone") None]}
              "a" (mkRow "ls" processing 0 3 1 4 None (Some "gone") None))
    as (_ & H2 & H3 & H4 & _); [reflexivity | by left |].
  split; [apply H2|]. split; [apply H3 | apply H4].
Defined.

(** ** A backoff beyond the range of dates *)

(** X23. When retries are left but the time value computed for the retry
    lies beyond the largest time value of a date, the failure branch of
    [executeJob] throws before it writes: the job stays in processing under
    the worker that claimed it, with its attempts count not raised. *)
Theorem backoff_overflow_leaves_job_processing (db : gmap string Row)
    (job : Job) (w : string) (message : option string) (cfg : ConfigTable)
    (tl tn tu : Z) (r : Row) :
  db !! id job = Some r → state r = pending →
  attempts job + 1 < max_retries job →
  (inject_Z MAX_TIME_VALUE
   < Qabs (js_add (inject_Z tn)
             (js_mul (Math_pow (Config.getBackoffBase cfg) (attempts job + 1))
                     (inject_Z 1000))))%Q →
  (executeJob job w (Rejected message) cfg tl tn tu db).1 = ThrowsRangeError ∧
  ∃ r', (executeJob job w (Rejected message) cfg tl tn tu db).2 !! id job
          = Some r' ∧
    state r' = processing ∧ worker_id r' = Some w ∧
    attempts r' = attempts r ∧ next_retry_at r' = next_retry_at r ∧
    error_message r' = error_message r.
Proof.
  intros Hr Hp Hlt Hbig.
  rewrite (executeJob_rejected_row db job w message cfg tl tn tu r Hr Hp).
  assert ((attempts job + 1 >=? max_retries job) = false) as ->.
  { rewrite Z.geb_leb, Z.leb_gt. lia. }
  assert (Date_toISOString (retry_instant cfg tn (attempts job + 1)) = None)
    as ->.
  { unfold Date_toISOString, retry_instant.
    destruct (Qle_bool _ _) eqn:E; [|done].
    apply Qle_bool_iff in E. by apply Qlt_not_le in Hbig. }
  simpl. split; [done|]. rewrite lookup_insert_eq.
  eexists. split; [done|]. by simpl.
Qed.

(** Base 1000 and a sixth attempt: 10^18 seconds ahead. *)
Lemma backoff_overflow_leaves_job_processing_witness :
  (executeJob (mkJob "a" (mkRow "exit 1" pending 5 10 1 1 None None None))
     "w" (Rejected (Some "boom")) (mkConfig (Some 10) (Some (1000 # 1)%Q))
     5 6 7 {["a" := mkRow "exit 1" pending 5 10 1 1 None None None]}).1
  = ThrowsRangeError.
Proof.
  apply (backoff_overflow_leaves_job_processing
           {["a" := mkRow "exit 1" pending 5 10 1 1 None None None]}
           (mkJob "a" (mkRow "exit 1" pending 5 10 1 1 None None None)) "w"
           (Some "boom") (mkConfig (Some 10) (Some (1000 # 1)%Q)) 5 6 7
           (mkRow "exit 1" pending 5 10 1 1 None None None));
    [reflexivity | reflexivity | reflexivity | vm_compute; reflexivity].
Defined.
